(** * KSP MGA planner: the editor's wiring of the two searches

    A shallow embedding of [src/main/editor/editor.ts].  The editor is a
    sequence of calls on collaborating objects (selectors, buttons, numeric
    inputs, the sequence generator, the trajectory solver): the embedding
    keeps the calls, in order, in a trace, and threads the exceptions of
    JavaScript through a small state-and-exception monad.  What the
    collaborators answer (the value of an input, the settlement of an awaited
    promise) is a parameter of the run.

    The calls that may throw are those the editor itself guards against:
    [assertValidity], [FlybySequence.fromString], the two awaited promises,
    and the reading of a property of [undefined].  The other calls on the
    widgets return.  An [await] is the settlement of its promise; what other
    handlers do while a promise is pending is not part of a run.

    The numbers the editor computes with are doubles; [Double] holds their
    arithmetic, as the Standard Library specifies it.

    The generator, the solver, the text of a sequence and the protocol by
    which a search is cancelled are not among the sources at hand; the
    modules [SequenceGenerator], [TrajectorySolver], [SequenceText] and
    [SearchControl] follow the specification for them. *)

From Stdlib Require Import List String Ascii ZArith QArith Qround Bool Arith Lia.
From Stdlib Require Import Decimal DecimalString DecimalNat.
From Stdlib Require Import SpecFloat.
Import ListNotations.

Local Open Scope string_scope.
Local Open Scope list_scope.

(** ** JavaScript values that reach a [catch] *)

(** [err instanceof Error] is all the editor asks of a caught value, together
    with its [message]. *)
Inductive JsThrown : Type :=
| JsError (message : string)
| JsOther (repr : string).

Definition instanceofError (err : JsThrown) : bool :=
  match err with
  | JsError _ => true
  | JsOther _ => false
  end.

Definition messageIs (err : JsThrown) (m : string) : bool :=
  match err with
  | JsError m' => String.eqb m' m
  | JsOther _ => false
  end.

(** How a call, or an awaited promise, ends. *)
Inductive Outcome (A : Type) : Type :=
| Returned (a : A)
| Thrown (err : JsThrown).
Arguments Returned {A} a.
Arguments Thrown {A} err.

(** [x < y] on numbers. *)
Definition Qltb (x y : Q) : bool := negb (Qle_bool y x).

(** ** Data the editor reads *)

(** [OrbitingBody], with the fields read here: [id], [attractor.id],
    [radius], [soi]. *)
Record OrbitingBody : Type := mkBody {
  body_id : Z;
  attractor_id : Z;
  radius : Q;
  soi : Q
}.

(** [FlybySequence], with the members read here: [bodies] and [length]. *)
Record FlybySequence : Type := mkSequence {
  bodies : list OrbitingBody;
  seq_length : nat
}.

(** The object literal [params] of [runSequenceGeneration]. *)
Record SequenceParameters : Type := mkParams {
  departureId : Z;
  destinationId : Z;
  maxBackSpacing : Z;
  maxSwingBys : Z;
  maxResonant : Z;
  maxBackLegs : Z
}.

(** [TrajectoryUserSettings]; [maxDuration] is [None] for [Infinity]. *)
Record TrajectoryUserSettings : Type := mkSettings {
  startDate : Q;
  endDate : Q;
  depAltitude : Z;
  destAltitude : Z;
  noInsertion : bool;
  maxDuration : option Q
}.

(** ** The collaborators and the calls made on them *)

Inductive Widget : Type :=
| sequenceSelector | systemSelector | detailsSelector | stepSlider
| seqGenBtn | searchStartBtn | showTrajDetailsBtn | downloadTrajDataBtn.

Inductive ErrorMessage : Type := sequenceParamsErr | searchParamsErr.

Inductive IntegerField : Type :=
| maxSwingBysInput | maxResonantInput | maxBackLegsInput | maxBackSpacingInput
| depAltitudeInput | destAltitudeInput | maxDurationInput.

Inductive TimeField : Type := timeRangeStart | timeRangeEnd.

Inductive Call : Type :=
| enable (w : Widget)
| disable (w : Widget)
| clear (w : Widget)
| select (w : Widget) (index : Z)
| click (w : Widget)
| fillFrom (sequences : list FlybySequence)
| hide (e : ErrorMessage)
| show (e : ErrorMessage) (err : JsThrown)
| progressMsg_enable (ms : Z)
| progressMsg_setMessage (percent : option Z)
| progressMsg_hide
| assertValidity (i : IntegerField)
| validate (i : IntegerField)
| setMinMax (i : IntegerField) (min max : Z)
| time_validate (t : TimeField)
| generateFlybySequences (params : SequenceParameters)
| fromString (text : string)
| searchOptimalTrajectory (sequence : FlybySequence) (settings : TrajectoryUserSettings)
| console_error (err : JsThrown)
| console_log (what : string)
| console_debug (what : string)
| systemTime_input
| deltaVPlot_reveal
| trajectory_remove
| trajectory_new
| trajectory_draw
| trajectory_fillResultControls
| trajectory_updatePodPosition.

Definition Trace := list Call.

(** ** The monad: a trace, the closure variables, and exceptions *)

Module JsMonad.

Section WithState.
Variable St : Type.

(** A computation gives the calls it made, how it ended, and the state. *)
Definition Js (A : Type) : Type := St -> Trace * Outcome A * St.

Definition ret {A} (a : A) : Js A := fun s => ([], Returned a, s).

Definition bind {A B} (m : Js A) (k : A -> Js B) : Js B :=
  fun s =>
    match m s with
    | (t1, Returned a, s1) =>
        let '(t2, r, s2) := k a s1 in (t1 ++ t2, r, s2)
    | (t1, Thrown err, s1) => (t1, Thrown err, s1)
    end.

Definition throw {A} (err : JsThrown) : Js A := fun s => ([], Thrown err, s).

Definition call (c : Call) : Js unit := fun s => ([c], Returned tt, s).

(** An awaited promise, or a call whose code is elsewhere, ends as [o]. *)
Definition settle {A} (o : Outcome A) : Js A := fun s => ([], o, s).

Definition get : Js St := fun s => ([], Returned s, s).

Definition put (s' : St) : Js unit := fun _ => ([], Returned tt, s').

(** [try { body } catch(err) { handler } finally { fin }]: the handler
    runs on a throw of the body, [fin] runs in every case, and a throw of
    [fin] replaces whatever came before. *)
Definition try_catch_finally {A} (body : Js A) (handler : JsThrown -> Js A)
           (fin : Js unit) : Js A :=
  fun s =>
    let '(t1, r1, s1) := body s in
    let '(t2, r2, s2) := match r1 with
                         | Returned a => ([], Returned a, s1)
                         | Thrown err => handler err s1
                         end in
    let '(t3, r3, s3) := fin s2 in
    (t1 ++ t2 ++ t3,
     match r3 with
     | Returned _ => r2
     | Thrown err => Thrown err
     end,
     s3).

Definition calls {A} (m : Js A) (s : St) : Trace := fst (fst (m s)).
Definition outcome {A} (m : Js A) (s : St) : Outcome A := snd (fst (m s)).
Definition final {A} (m : Js A) (s : St) : St := snd (m s).
End WithState.

Arguments ret {St A} a.
Arguments bind {St A B} m k.
Arguments throw {St A} err.
Arguments call {St} c.
Arguments settle {St A} o.
Arguments get {St}.
Arguments put {St} s'.
Arguments try_catch_finally {St A} body handler fin.
Arguments calls {St A} m s.
Arguments outcome {St A} m s.
Arguments final {St A} m s.

End JsMonad.
Import JsMonad.

Declare Scope js_scope.
Delimit Scope js_scope with js.
Notation "x <- m ;; k" := (bind m (fun x => k))
  (at level 61, m at next level, right associativity) : js_scope.
Notation "m ;; k" := (bind m (fun _ => k))
  (at level 61, right associativity) : js_scope.

(** ** The editor *)

(** ** Numbers

    The numbers of JavaScript are the doubles of IEEE 754: binary64, with 53
    binary digits, each operation rounded to the nearest double, ties to
    even.  [spec_float] and its operations are the specification of them in
    the Standard Library. *)

Module Double.

Local Open Scope Z_scope.

Definition prec : Z := 53.
Definition emax : Z := 1024.

Definition double : Type := spec_float.

(** [x * y], [x / y] and [x - y]. *)
Definition mul : double -> double -> double := SFmul prec emax.
Definition div : double -> double -> double := SFdiv prec emax.
Definition sub : double -> double -> double := SFsub prec emax.

(** The double nearest to a whole number. *)
Definition ofZ (z : Z) : double := binary_normalize prec emax z 0 false.

(** The double nearest to the number [n / d]: the quotient of the two whole
    numbers, rounded once. *)
Definition ofQ (q : Q) : double :=
  match Qnum q with
  | Z0 => S754_zero false
  | Zpos n => SFdiv prec emax (S754_finite false n 0) (S754_finite false (Qden q) 0)
  | Zneg n => SFdiv prec emax (S754_finite true n 0) (S754_finite false (Qden q) 0)
  end.

(** [Math.floor(x)], as a whole number: the mantissa moved by the exponent,
    a move to the right dropping the digits below the unit.  None for [NaN]
    and the two infinities. *)
Definition floor (x : double) : option Z :=
  match x with
  | S754_zero _ => Some 0
  | S754_finite s m e => Some (Z.shiftl (cond_Zopp s (Zpos m)) e)
  | S754_infinity _ | S754_nan => None
  end.

(** The double that holds a whole number [n] with [0 < n < 2^53]: [n]
    itself, its first digit moved up to the 53rd place. *)
Definition canon (n : Z) : double :=
  S754_finite false (Z.to_pos (n * 2 ^ (52 - Z.log2 n))) (Z.log2 n - 52).

End Double.

Module Editor.

(** What the page answers during one run of a handler: the state of the form
    controls and of the objects of [src/main/editor] and [src/main/solvers]
    whose code the editor only calls. *)
Record Dom : Type := mkDom {
  originBody : OrbitingBody;                       (* originSelector.body *)
  destBody : OrbitingBody;                         (* destSelector.body *)
  assertValidity_of : IntegerField -> Outcome unit;
  validate_of : IntegerField -> bool;
  (* the value of an input in its initial range *)
  value_of : IntegerField -> Z;
  (* the value of an input once setMinMax(min, max) was called on it *)
  value_after_setMinMax : IntegerField -> Z -> Z -> Z;
  customSequence_value : string;
  sequenceSelector_sequence : option FlybySequence;  (* None: undefined *)
  time_validate_of : TimeField -> bool;
  dateSeconds : TimeField -> Q;
  useMaxDuration_checked : bool;
  noInsertionBox_checked : bool;
  config_time_type : string;
  config_time_hoursPerDay : Q
}.

(** A run of [generator.generateFlybySequences]: the readings of
    [generator.progression] and [generator.totalFeasible] at each call of
    [onProgress], then the settlement of the promise. *)
Record GeneratorRun : Type := mkGeneratorRun {
  progress : list (Z * Z);
  settled : Outcome (list FlybySequence)
}.

(** What lives between two runs of a handler: the variables [trajectory] and
    [trajectoryCounter] that the closures share, and the range last given
    to each of the two altitude inputs by [setMinMax]. *)
Record Closure : Type := mkClosure {
  trajectory : bool;             (* false: undefined *)
  trajectoryCounter : nat;
  depAltitude_range : option (Z * Z);
  destAltitude_range : option (Z * Z)
}.

Definition M := Js Closure.

Definition when (b : bool) (m : M unit) : M unit := if b then m else ret tt.

Fixpoint forEach {A} (l : list A) (f : A -> M unit) : M unit :=
  match l with
  | [] => ret tt
  | x :: l' => bind (f x) (fun _ => forEach l' f)
  end.

(** Reading a property of [undefined]; the text of the message is the
    engine's. *)
Definition typeError : JsThrown := JsError "TypeError: undefined has no properties".

Local Open Scope js_scope.
Local Open Scope Z_scope.

Section Run.
Variable dom : Dom.
(** The three entry points of the solvers package used by the editor. *)
Variable generator : SequenceParameters -> GeneratorRun.
Variable FlybySequence_fromString : string -> Outcome FlybySequence.
Variable solver : FlybySequence -> TrajectoryUserSettings -> Outcome unit.

(** *** Sequence generation panel *)

Definition assertValidityOf (i : IntegerField) : M unit :=
  call (assertValidity i) ;; settle (assertValidity_of dom i).

Definition assertSequenceInputs : M unit :=
  assertValidityOf maxBackSpacingInput ;;
  assertValidityOf maxSwingBysInput ;;
  assertValidityOf maxResonantInput ;;
  assertValidityOf maxBackLegsInput ;;
  let depBody := originBody dom in
  let destBody := destBody dom in
  (if negb (attractor_id depBody =? attractor_id destBody)
   then throw (JsError "Origin and destination bodies must orbit the same body.")
   else ret tt) ;;
  (if body_id depBody =? body_id destBody
   then throw (JsError "Same origin and destination bodies.")
   else ret tt).

(** [Math.floor(100 * progression / totalFeasible)], on doubles: the
    product is rounded, then the quotient.  [None] when the quotient is not
    a finite number. *)
Definition percentOf (reading : Z * Z) : option Z :=
  let '(progression, totalFeasible) := reading in
  Double.floor
    (Double.div (Double.mul (Double.ofZ 100) (Double.ofZ progression))
                (Double.ofZ totalFeasible)).

Definition onProgress (reading : Z * Z) : M unit :=
  call (progressMsg_setMessage (percentOf reading)).

Definition sequenceParams : SequenceParameters :=
  {| departureId := body_id (originBody dom);
     destinationId := body_id (destBody dom);
     maxBackSpacing := value_of dom maxBackSpacingInput;
     maxSwingBys := value_of dom maxSwingBysInput;
     maxResonant := value_of dom maxResonantInput;
     maxBackLegs := value_of dom maxBackLegsInput |}.

Definition runSequenceGeneration : M unit :=
  let params := sequenceParams in
  call (generateFlybySequences params) ;;
  forEach (progress (generator params)) onProgress ;;
  sequences <- settle (settled (generator params)) ;;
  call (fillFrom sequences).

(** The [try] block of [generateSequences]. *)
Definition generateSequences_try : M unit :=
  call (disable sequenceSelector) ;;
  call (clear sequenceSelector) ;;
  call (progressMsg_enable 1000) ;;
  assertSequenceInputs ;;
  runSequenceGeneration ;;
  call (enable sequenceSelector).

Definition generateSequences : M unit :=
  call (hide sequenceParamsErr) ;;
  call (disable systemSelector) ;;
  try_catch_finally
    generateSequences_try
    (fun err =>
       when (instanceofError err && negb (messageIs err "WORKER CANCELLED"))
            (call (show sequenceParamsErr err)) ;;
       call (console_error err))
    (call progressMsg_hide ;;
     call (enable systemSelector)).

(** The click handler of [seqGenBtn]. *)
Definition seqGenBtn_onclick : M unit :=
  call (disable seqGenBtn) ;;
  generateSequences ;;
  call (enable seqGenBtn).

(** *** Trajectory search panel *)

(** [input.setMinMax(min, max)], on one of the two altitude inputs. *)
Definition input_setMinMax (input : IntegerField) (min max : Z) : M unit :=
  call (setMinMax input min max) ;;
  s <- get ;;
  match input with
  | depAltitudeInput =>
      put {| trajectory := trajectory s;
             trajectoryCounter := trajectoryCounter s;
             depAltitude_range := Some (min, max);
             destAltitude_range := destAltitude_range s |}
  | destAltitudeInput =>
      put {| trajectory := trajectory s;
             trajectoryCounter := trajectoryCounter s;
             depAltitude_range := depAltitude_range s;
             destAltitude_range := Some (min, max) |}
  | _ => ret tt
  end.

Definition rangeOf (s : Closure) (input : IntegerField) : option (Z * Z) :=
  match input with
  | depAltitudeInput => depAltitude_range s
  | destAltitudeInput => destAltitude_range s
  | _ => None
  end.

(** [input.value]. *)
Definition input_value (input : IntegerField) : M Z :=
  s <- get ;;
  ret (match rangeOf s input with
       | Some (min, max) => value_after_setMinMax dom input min max
       | None => value_of dom input
       end).

(** [Math.floor((body.soi - body.radius) / 1000)], on doubles: [body.soi]
    and [body.radius] are the doubles nearest to the numbers of the record;
    the difference is rounded, then the quotient.  The quotient is a finite
    number unless one of the two is beyond the largest double; there is no
    whole number for it then, and 0 stands in its place. *)
Definition altitudeMax (body : OrbitingBody) : Z :=
  match Double.floor
          (Double.div (Double.sub (Double.ofQ (soi body)) (Double.ofQ (radius body)))
                      (Double.ofZ 1000)) with
  | Some max => max
  | None => 0
  end.

(** [body] is [None] when the index read in [sequence.bodies] holds nothing:
    [body.soi] then fails. *)
Definition updateAltitudeRange (input : IntegerField) (body : option OrbitingBody)
  : M unit :=
  match body with
  | None => throw typeError
  | Some b =>
      let max := altitudeMax b in
      input_setMinMax input 0 max
  end.

Definition resetFoundTrajectory : M unit :=
  call systemTime_input ;;
  call deltaVPlot_reveal ;;
  call (clear detailsSelector) ;;
  call (disable detailsSelector) ;;
  call (disable stepSlider) ;;
  call (disable showTrajDetailsBtn) ;;
  call (disable downloadTrajDataBtn) ;;
  s <- get ;;
  when (trajectory s) (call trajectory_remove).

Definition displayFoundTrajectory (sequence : FlybySequence) : M unit :=
  call trajectory_new ;;
  s <- get ;;
  put {| trajectory := true;
         trajectoryCounter := trajectoryCounter s;
         depAltitude_range := depAltitude_range s;
         destAltitude_range := destAltitude_range s |} ;;
  call trajectory_draw ;;
  call trajectory_fillResultControls ;;
  call systemTime_input ;;
  call (select detailsSelector 0) ;;
  call (enable detailsSelector) ;;
  call (enable stepSlider) ;;
  call trajectory_updatePodPosition ;;
  call (console_log "solver.bestDeltaV") ;;
  call (console_log "trajText") ;;
  s <- get ;;
  put {| trajectory := trajectory s;
         trajectoryCounter := S (trajectoryCounter s);
         depAltitude_range := depAltitude_range s;
         destAltitude_range := destAltitude_range s |} ;;
  call (click showTrajDetailsBtn) ;;
  call (enable showTrajDetailsBtn) ;;
  call (click downloadTrajDataBtn) ;;
  call (enable downloadTrajDataBtn).

Definition validateTime (t : TimeField) : M bool :=
  call (time_validate t) ;; ret (time_validate_of dom t).

Definition validateInput (i : IntegerField) : M bool :=
  call (validate i) ;; ret (validate_of dom i).

(** The first property read on [sequence]: it fails when the selector gave
    [undefined]. *)
Definition dereference (sequence : option FlybySequence) : M FlybySequence :=
  match sequence with
  | None => throw typeError
  | Some sq => ret sq
  end.

(** [sequence.bodies[slen - 1]]; nothing is stored at index -1. *)
Definition bodyBefore (sequence : FlybySequence) (slen : nat) : option OrbitingBody :=
  match slen with
  | O => None
  | S n => nth_error (bodies sequence) n
  end.

Definition chosenSequence : M (option FlybySequence) :=
  if negb (String.eqb (customSequence_value dom) "")
  then
    call (fromString (customSequence_value dom)) ;;
    sequence <- settle (FlybySequence_fromString (customSequence_value dom)) ;;
    call (console_debug "sequence.seqStringFullNames") ;;
    ret (Some sequence)
  else ret (sequenceSelector_sequence dom).

Definition maxDurationSeconds : option Q :=
  if useMaxDuration_checked dom
  then
    if String.eqb (config_time_type dom) "base"
    then
      let secondsPerDay := (config_time_hoursPerDay dom * inject_Z 3600)%Q in
      Some (inject_Z (value_of dom maxDurationInput) * secondsPerDay)%Q
    else Some (inject_Z (value_of dom maxDurationInput) * inject_Z 24 * inject_Z 3600)%Q
  else None.

(** The [try] block of [findTrajectory]. *)
Definition findTrajectory_try : M unit :=
  sequence <- chosenSequence ;;
  sequence <- dereference sequence ;;
  updateAltitudeRange depAltitudeInput (nth_error (bodies sequence) 0) ;;
  let slen := seq_length sequence in
  updateAltitudeRange destAltitudeInput (bodyBefore sequence slen) ;;
  startOk <- validateTime timeRangeStart ;;
  endOk <- (if negb startOk then ret false else validateTime timeRangeEnd) ;;
  (if negb startOk || negb endOk
   then throw (JsError "Invalid departure and arrival date values.")
   else ret tt) ;;
  let startDate := dateSeconds dom timeRangeStart in
  let endDate := dateSeconds dom timeRangeEnd in
  (if Qltb endDate startDate
   then throw (JsError "Departure date range end must be greater than the start date.")
   else ret tt) ;;
  depAltitudeValue <- input_value depAltitudeInput ;;
  let depAltitudeVal := depAltitudeValue * 1000 in
  destAltitudeValue <- input_value destAltitudeInput ;;
  let destAltitudeVal := destAltitudeValue * 1000 in
  durationOk <- validateInput maxDurationInput ;;
  (if negb durationOk then throw (JsError "Invalid duration limit.") else ret tt) ;;
  call (console_debug "maxDurationSeconds") ;;
  resetFoundTrajectory ;;
  let userSettings :=
    {| startDate := startDate;
       endDate := endDate;
       depAltitude := depAltitudeVal;
       destAltitude := destAltitudeVal;
       noInsertion := noInsertionBox_checked dom;
       maxDuration := maxDurationSeconds |} in
  call (searchOptimalTrajectory sequence userSettings) ;;
  settle (solver sequence userSettings) ;;
  call (console_log "Search time") ;;
  displayFoundTrajectory sequence.

Definition findTrajectory : M unit :=
  call (hide searchParamsErr) ;;
  call (disable systemSelector) ;;
  try_catch_finally
    findTrajectory_try
    (fun err =>
       when (instanceofError err && negb (messageIs err "TRAJECTORY FINDER CANCELLED"))
            (call (show searchParamsErr err)) ;;
       call (console_error err))
    (call (enable systemSelector)).

(** The click handler of [searchStartBtn]. *)
Definition searchStartBtn_onclick : M unit :=
  call (disable searchStartBtn) ;;
  findTrajectory ;;
  call (enable searchStartBtn).

(** *** The two searches, side by side *)

Inductive Search : Type := SequenceGeneration | TrajectorySearch.

(** The message by which the [catch] of each handler knows a cancellation. *)
Definition cancelMessage (k : Search) : string :=
  match k with
  | SequenceGeneration => "WORKER CANCELLED"
  | TrajectorySearch => "TRAJECTORY FINDER CANCELLED"
  end.

Definition tryBlock (k : Search) : M unit :=
  match k with
  | SequenceGeneration => generateSequences_try
  | TrajectorySearch => findTrajectory_try
  end.

Definition handler (k : Search) : M unit :=
  match k with
  | SequenceGeneration => generateSequences
  | TrajectorySearch => findTrajectory
  end.

Definition button (k : Search) : Widget :=
  match k with
  | SequenceGeneration => seqGenBtn
  | TrajectorySearch => searchStartBtn
  end.

Definition onclick (k : Search) : M unit :=
  match k with
  | SequenceGeneration => seqGenBtn_onclick
  | TrajectorySearch => searchStartBtn_onclick
  end.

(** What the [finally] block of each handler calls. *)
Definition finallyCalls (k : Search) : Trace :=
  match k with
  | SequenceGeneration => [progressMsg_hide; enable systemSelector]
  | TrajectorySearch => [enable systemSelector]
  end.

(** What a [catch] block of the editor calls, given how the [try] block
    ended. *)
Definition catchCalls (e : ErrorMessage) (cancelled : string) (o : Outcome unit) : Trace :=
  match o with
  | Returned _ => []
  | Thrown err =>
      (if instanceofError err && negb (messageIs err cancelled)
       then [show e err] else [])
      ++ [console_error err]
  end.

Definition errorMessageOf (k : Search) : ErrorMessage :=
  match k with
  | SequenceGeneration => sequenceParamsErr
  | TrajectorySearch => searchParamsErr
  end.

End Run.

Arguments altitudeMax body : simpl never.

End Editor.

(** ** Reading a trace *)

Module TraceView.

Definition Widget_eqb (a b : Widget) : bool :=
  match a, b with
  | sequenceSelector, sequenceSelector | systemSelector, systemSelector
  | detailsSelector, detailsSelector | stepSlider, stepSlider
  | seqGenBtn, seqGenBtn | searchStartBtn, searchStartBtn
  | showTrajDetailsBtn, showTrajDetailsBtn
  | downloadTrajDataBtn, downloadTrajDataBtn => true
  | _, _ => false
  end.

(** Whether the last of the [enable] and [disable] calls on [w] was an
    [enable]; [known] when there is none. *)
Fixpoint enabledAfter (w : Widget) (known : option bool) (tr : Trace) : option bool :=
  match tr with
  | [] => known
  | enable w' :: tr' =>
      enabledAfter w (if Widget_eqb w w' then Some true else known) tr'
  | disable w' :: tr' =>
      enabledAfter w (if Widget_eqb w w' then Some false else known) tr'
  | _ :: tr' => enabledAfter w known tr'
  end.

(** Whether the progress message is on display after the calls of [tr]. *)
Fixpoint progressShownAfter (known : option bool) (tr : Trace) : option bool :=
  match tr with
  | [] => known
  | progressMsg_enable _ :: tr' => progressShownAfter (Some true) tr'
  | progressMsg_hide :: tr' => progressShownAfter (Some false) tr'
  | _ :: tr' => progressShownAfter known tr'
  end.

(** The calls that reach the sequence selector. *)
Definition onSequenceSelector (c : Call) : bool :=
  match c with
  | enable w | disable w | clear w | select w _ | click w => Widget_eqb w sequenceSelector
  | fillFrom _ => true
  | _ => false
  end.

End TraceView.

(** ** A page to run the handlers on *)

Module Samples.
Import Editor.

Definition kerbin : OrbitingBody :=
  {| body_id := 3; attractor_id := 0; radius := 600000 # 1; soi := 84159286 # 1 |}.
Definition mun : OrbitingBody :=
  {| body_id := 4; attractor_id := 3; radius := 200000 # 1; soi := 2429559 # 1 |}.
Definition duna : OrbitingBody :=
  {| body_id := 6; attractor_id := 0; radius := 320000 # 1; soi := 47921949 # 1 |}.

Definition kerbinToDuna : FlybySequence :=
  {| bodies := [kerbin; duna]; seq_length := 2 |}.

(** A page with valid inputs, no custom sequence, and the given bodies and
    departure window. *)
Definition page (origin dest : OrbitingBody) (windowStart windowEnd : Q) : Dom :=
  {| originBody := origin;
     destBody := dest;
     assertValidity_of := fun _ => Returned tt;
     validate_of := fun _ => true;
     value_of := fun i =>
                   match i with
                   | maxSwingBysInput => 2
                   | maxResonantInput => 1
                   | maxBackLegsInput => 1
                   | maxBackSpacingInput => 2
                   | maxDurationInput => 400
                   | _ => 100
                   end%Z;
     value_after_setMinMax := fun _ _ _ => 100%Z;
     customSequence_value := "";
     sequenceSelector_sequence := Some kerbinToDuna;
     time_validate_of := fun _ => true;
     dateSeconds := fun t => match t with
                             | timeRangeStart => windowStart
                             | timeRangeEnd => windowEnd
                             end;
     useMaxDuration_checked := false;
     noInsertionBox_checked := false;
     config_time_type := "base";
     config_time_hoursPerDay := 6 # 1 |}.

Definition freshClosure : Closure :=
  {| trajectory := false; trajectoryCounter := 0;
     depAltitude_range := None; destAltitude_range := None |}.

Definition cancelledGenerator (_ : SequenceParameters) : GeneratorRun :=
  {| progress := [(1, 4)%Z]; settled := Thrown (JsError "WORKER CANCELLED") |}.

Definition directGenerator (_ : SequenceParameters) : GeneratorRun :=
  {| progress := [(1, 1)%Z]; settled := Returned [kerbinToDuna] |}.

Definition noParser (_ : string) : Outcome FlybySequence :=
  Thrown (JsError "Invalid custom sequence input.").

Definition quietSolver (_ : FlybySequence) (_ : TrajectoryUserSettings) : Outcome unit :=
  Returned tt.


End Samples.

(** * The flyby sequence generator

    The editor only calls [generator.generateFlybySequences]; the generator
    itself ([src/main/solvers/sequence-solver]) is described by the
    specification, sections 3 and 4.1. *)

Module SequenceGenerator.

Local Open Scope nat_scope.

(** Modelled from the spec: the [Body] and [System] of the data model, which
    the sources at hand only read through [OrbitingBody].  A body has an
    identity, the identity of its attractor (none for the central body), a
    gravitational parameter, a radius, a sphere of influence and orbital
    elements, of which the enumerator compares the semi-major axis. *)
Record Body : Type := mkBody {
  identity : nat;
  attractor : option nat;
  gravParameter : Q;
  bodyRadius : Q;
  soiRadius : Q;
  semiMajorAxis : Q
}.

(** Modelled from the spec: the [System] (its source is missing), the
    central body and the bodies in orbit, with lookup by identity. *)
Definition System : Type := list Body.

Definition lookup (sys : System) (i : nat) : option Body :=
  find (fun b => identity b =? i) sys.

(** Modelled from the spec: a [FlybySequence] (the source of the class is
    missing) is the ordered list of the identities of its bodies, the origin
    first and the destination last. *)
Definition FlybySequence : Type := list nat.

(** Modelled from the spec: [SearchParameters], what the missing generator
    receives: the two ends and the four non-negative bounds. *)
Record SearchParameters : Type := mkSearch {
  departure : nat;
  destination : nat;
  maxSwingBys : nat;
  maxResonant : nat;
  maxBackLegs : nat;
  maxBackSpacing : nat
}.

Definition option_nat_eqb (a b : option nat) : bool :=
  match a, b with
  | Some x, Some y => x =? y
  | None, None => true
  | _, _ => false
  end.

Definition sameAttractor (sys : System) (a b : nat) : bool :=
  match lookup sys a, lookup sys b with
  | Some x, Some y => option_nat_eqb (attractor x) (attractor y)
  | _, _ => false
  end.

(** Modelled from the spec: a back leg is a leg whose target is closer to
    the central body than its source. *)
Definition isBackLeg (sys : System) (source target : nat) : bool :=
  match lookup sys source, lookup sys target with
  | Some x, Some y => Qltb (semiMajorAxis y) (semiMajorAxis x)
  | _, _ => false
  end.

(** Modelled from the spec: a resonant assist is a body visited twice in a
    row. *)
Definition isResonant (source target : nat) : bool := source =? target.

(** ** The derived metadata of a sequence *)

Definition legs (seq : FlybySequence) : list (nat * nat) := combine seq (tl seq).

(** Modelled from the spec: the number of gravity assists, length - 2. *)
Definition assistCount (seq : FlybySequence) : nat := List.length seq - 2.

Definition resonantCount (seq : FlybySequence) : nat :=
  List.length (filter (fun l => isResonant (fst l) (snd l)) (legs seq)).

Definition backLegCount (sys : System) (seq : FlybySequence) : nat :=
  List.length (filter (fun l => isBackLeg sys (fst l) (snd l)) (legs seq)).

(** The indices, from [i] on, of the elements of [l] that satisfy [f]. *)
Fixpoint positions {A} (f : A -> bool) (l : list A) (i : nat) : list nat :=
  match l with
  | [] => []
  | x :: l' => (if f x then [i] else []) ++ positions f l' (S i)
  end.

(** The number of places strictly between each index and the next. *)
Fixpoint gaps (indices : list nat) : list nat :=
  match indices with
  | i :: (j :: _) as rest => (j - i - 1) :: gaps rest
  | _ => []
  end.

(** Modelled from the spec: the spacing, in legs, between each back leg and
    the next one: the number of legs that lie between the two. *)
Definition backSpacings (sys : System) (seq : FlybySequence) : list nat :=
  gaps (positions (fun l => isBackLeg sys (fst l) (snd l)) (legs seq) 0).

(** The three bounds that apply to a sequence under construction as well. *)
Definition legsWithinBounds (sys : System) (p : SearchParameters) (seq : FlybySequence)
  : Prop :=
  resonantCount seq <= maxResonant p
  /\ backLegCount sys seq <= maxBackLegs p
  /\ Forall (fun d => d <= maxBackSpacing p) (backSpacings sys seq).

Definition withinBounds (sys : System) (p : SearchParameters) (seq : FlybySequence)
  : Prop :=
  assistCount seq <= maxSwingBys p /\ legsWithinBounds sys p seq.

(** ** The enumeration *)

Section Enumeration.
Variable sys : System.
Variable p : SearchParameters.

(** Modelled from the spec: a node of the depth-first expansion.  It holds
    the bodies chosen so far and what they have consumed of the budgets: the
    resonant assists, the back legs, and the number of legs made since the
    last back leg (none before the first one). *)
Record Node : Type := mkNode {
  path : FlybySequence;
  resonant : nat;
  backLegs : nat;
  sinceBack : option nat
}.

Definition current (n : Node) : nat := last (path n) (departure p).

(** Modelled from the spec: one more leg, from the current body to [next].
    The leg consumes the resonant budget when [next] is the current body,
    and the back-leg budget when it moves toward the central body, in which
    case it is also checked against the spacing to the previous back leg.
    [None]: the leg would exceed a bound, the branch is pruned. *)
Definition step (n : Node) (next : nat) : option Node :=
  let cur := current n in
  let resonant' := if isResonant cur next then S (resonant n) else resonant n in
  if isBackLeg sys cur next
  then
    let spacingOk := match sinceBack n with
                     | Some d => d <=? maxBackSpacing p
                     | None => true
                     end in
    if (resonant' <=? maxResonant p) && (S (backLegs n) <=? maxBackLegs p) && spacingOk
    then Some {| path := path n ++ [next];
                 resonant := resonant';
                 backLegs := S (backLegs n);
                 sinceBack := Some 0 |}
    else None
  else
    if resonant' <=? maxResonant p
    then Some {| path := path n ++ [next];
                 resonant := resonant';
                 backLegs := backLegs n;
                 sinceBack := option_map S (sinceBack n) |}
    else None.

(** Modelled from the spec: the bodies at which a flyby may be inserted,
    those that share the attractor of the current body. *)
Definition candidates (cur : nat) : list nat :=
  map identity (filter (fun b => sameAttractor sys cur (identity b)) sys).

(** Modelled from the spec: (a) the sequence ends at the destination when it
    is directly reachable, that is when it shares the attractor of the
    current body.  The last leg is a leg like the others, refused when it
    would exceed a bound; it costs no assist. *)
Definition arrivals (n : Node) : list FlybySequence :=
  if sameAttractor sys (current n) (destination p)
  then match step n (destination p) with
       | Some n' => [path n']
       | None => []
       end
  else [].

(** Modelled from the spec: (b), (c) the nodes reached by one more flyby,
    at one of the candidates; whether the leg to it is resonant or a back
    leg is decided by [step]. *)
Definition children (n : Node) : list Node :=
  flat_map (fun b => match step n b with
                     | Some n' => [n']
                     | None => []
                     end)
           (candidates (current n)).

(** Modelled from the spec: the depth-first expansion of the missing
    [FlybySequenceGenerator].  [budget] is what is left of the assist
    budget: a flyby costs one assist, and no flyby is inserted once the
    budget is spent.  The result is the nodes expanded and the sequences
    found, both in order of discovery. *)
Fixpoint explore (budget : nat) (n : Node) : list Node * list FlybySequence :=
  match budget with
  | O => ([n], arrivals n)
  | S budget' =>
      let branches := map (explore budget') (children n) in
      (n :: flat_map fst branches, arrivals n ++ flat_map snd branches)
  end.

Definition root : Node :=
  {| path := [departure p]; resonant := 0; backLegs := 0; sinceBack := None |}.

(** Modelled from the spec: [FlybySequenceGenerator.generateFlybySequences]
    (its source is missing), for a run that is not cancelled. *)
Definition generateFlybySequences : list FlybySequence :=
  snd (explore (maxSwingBys p) root).

(** The nodes on which the expansion recursed. *)
Definition expanded : list Node := fst (explore (maxSwingBys p) root).

(** What a node records agrees with the metadata of its path, which is
    within the bounds on legs. *)
Definition tracks (n : Node) : Prop :=
  path n <> []
  /\ resonant n = resonantCount (path n)
  /\ backLegs n = backLegCount sys (path n)
  /\ match sinceBack n with
     | None => positions (fun l => isBackLeg sys (fst l) (snd l)) (legs (path n)) 0 = []
     | Some d =>
         exists earlier i,
           positions (fun l => isBackLeg sys (fst l) (snd l)) (legs (path n)) 0
           = earlier ++ [i]
           /\ i + d + 1 = List.length (legs (path n))
     end
  /\ legsWithinBounds sys p (path n).

End Enumeration.

(** A system in the manner of the stock one. *)
Definition stock : System :=
  [ {| identity := 0; attractor := None; gravParameter := 1172332800 # 1;
       bodyRadius := 261600000 # 1; soiRadius := 0; semiMajorAxis := 0 |};
    {| identity := 2; attractor := Some 0; gravParameter := 8171730 # 1;
       bodyRadius := 700000 # 1; soiRadius := 85109365 # 1;
       semiMajorAxis := 9832684544 # 1 |};
    {| identity := 3; attractor := Some 0; gravParameter := 3531600 # 1;
       bodyRadius := 600000 # 1; soiRadius := 84159286 # 1;
       semiMajorAxis := 13599840256 # 1 |};
    {| identity := 4; attractor := Some 3; gravParameter := 65138 # 1;
       bodyRadius := 200000 # 1; soiRadius := 2429559 # 1;
       semiMajorAxis := 12000000 # 1 |};
    {| identity := 6; attractor := Some 0; gravParameter := 301363 # 1;
       bodyRadius := 320000 # 1; soiRadius := 47921949 # 1;
       semiMajorAxis := 20726155264 # 1 |} ].

End SequenceGenerator.

(** * The trajectory solver

    The editor only calls [solver.searchOptimalTrajectory]; the solver itself
    ([src/main/solvers/trajectory-solver]) is described by the
    specification, sections 3, 4.2 and 4.3. *)

Module TrajectorySolver.

Local Open Scope nat_scope.

(** Modelled from the spec: the [ProgressSnapshot] of the trajectory solver:
    the iteration index, the iteration budget it is a fraction of, and the
    best delta-v found so far ([None] while no candidate has been kept). *)
Record ProgressSnapshot : Type := mkSnapshot {
  iteration : nat;
  budget : nat;
  bestDeltaV : option Q
}.

(** [later] is no greater than [earlier]; nothing found yet is above any
    value. *)
Definition notAbove (later earlier : option Q) : Prop :=
  match earlier, later with
  | None, _ => True
  | Some e, Some l => (l <= e)%Q
  | Some _, None => False
  end.

(** Each snapshot of the list is no greater than the one before it, the
    first one no greater than [bound]. *)
Fixpoint descending (bound : option Q) (snapshots : list ProgressSnapshot) : Prop :=
  match snapshots with
  | [] => True
  | s :: rest => notAbove (bestDeltaV s) bound /\ descending (bestDeltaV s) rest
  end.

Section Solver.
(** Modelled from the spec: a candidate is a point of the continuous
    parameter space (departure epoch, times of flight, flyby geometry). *)
Variable Candidate : Type.
(** Modelled from the spec: the objective, the total delta-v of the
    trajectory a candidate stands for, penalties included; [None] for a
    candidate rejected as infeasible. *)
Variable evaluate : Candidate -> option Q.
(** Modelled from the spec: the update of the population at one generation. *)
Variable nextGeneration : nat -> list Candidate -> list Candidate.
Variable iterationBudget : nat.
(** Modelled from the spec: convergence is an improvement below [threshold]
    for [patience] generations in a row. *)
Variable threshold : Q.
Variable patience : nat.
(** Whether a cancellation request is seen at the checkpoint of generation
    [i]. *)
Variable cancelRequested : nat -> bool.

Inductive SearchOutcome : Type :=
| Found (best : Candidate) (deltaV : Q)
| Cancelled
| Infeasible.

Record SolverState : Type := mkSolverState {
  population : list Candidate;
  best : option (Candidate * Q);
  stalled : nat
}.

(** Modelled from the spec: the best delta-v observed so far changes only
    for a candidate that is strictly better. *)
Definition consider (best : option (Candidate * Q)) (c : Candidate)
  : option (Candidate * Q) :=
  match evaluate c with
  | None => best
  | Some v =>
      match best with
      | None => Some (c, v)
      | Some (_, b) => if Qltb v b then Some (c, v) else best
      end
  end.

Definition considerAll (best : option (Candidate * Q)) (pop : list Candidate)
  : option (Candidate * Q) :=
  fold_left consider pop best.

Definition improved (old new : option (Candidate * Q)) : bool :=
  match old, new with
  | Some (_, a), Some (_, b) => Qltb threshold (a - b)
  | None, Some _ => true
  | _, None => false
  end.

Definition finish (best : option (Candidate * Q)) : SearchOutcome :=
  match best with
  | Some (c, v) => Found c v
  | None => Infeasible
  end.

(** Modelled from the spec: the generations of the missing
    [TrajectorySolver].  Each one looks for a cancellation request, updates
    the population, and emits a snapshot with the iteration index and the
    best delta-v so far; the search ends on cancellation, on convergence, or
    when the budget [fuel] is spent. *)
Fixpoint generations (fuel i : nat) (st : SolverState)
  : list ProgressSnapshot * SearchOutcome :=
  match fuel with
  | O => ([], finish (best st))
  | S fuel' =>
      if cancelRequested i then ([], Cancelled)
      else
        let pop' := nextGeneration i (population st) in
        let best' := considerAll (best st) pop' in
        let stalled' := if improved (best st) best' then 0 else S (stalled st) in
        let snapshot := {| iteration := S i;
                           budget := iterationBudget;
                           bestDeltaV := option_map snd best' |} in
        if patience <=? stalled'
        then ([snapshot], finish best')
        else
          let '(snapshots, out) :=
            generations fuel' (S i)
              {| population := pop'; best := best'; stalled := stalled' |} in
          (snapshot :: snapshots, out)
  end.

(** Modelled from the spec: [TrajectorySolver.searchOptimalTrajectory] (its
    source is missing), from an initial population. *)
Definition searchOptimalTrajectory (initial : list Candidate)
  : list ProgressSnapshot * SearchOutcome :=
  generations iterationBudget 0
    {| population := initial; best := considerAll None initial; stalled := 0 |}.

End Solver.

(** A search on one parameter, the delta-v of a candidate being its square
    plus 1000, and each generation halving the candidates. *)
Definition halving (_ : nat) (pop : list Z) : list Z := map (fun x => (x / 2)%Z) pop.
Definition squarePlus (x : Z) : option Q := Some (inject_Z (x * x + 1000)).

End TrajectorySolver.

(** * The text of a sequence

    The editor hands the text of the custom sequence input to
    [FlybySequence.fromString]; [FlybySequence] itself
    ([src/main/solvers/sequence]) is described by the specification,
    sections 3 and 8. *)

Module SequenceText.
Import SequenceGenerator.

Local Open Scope nat_scope.

(** Modelled from the spec: the invariant of a [FlybySequence]: it is not
    empty, its bodies are bodies of the system, and they all have the
    attractor of the origin. *)
Definition valid (sys : System) (seq : FlybySequence) : bool :=
  match seq with
  | [] => false
  | origin :: _ => forallb (sameAttractor sys origin) seq
  end.

(** Modelled from the spec: how an identity is written in the body-id
    string; in decimal digits, the specification giving no layout. *)
Definition idToString (i : nat) : string := NilZero.string_of_uint (Nat.to_uint i).

Definition idOfString (s : string) : option nat :=
  option_map Nat.of_uint (NilZero.uint_of_string s).

(** Modelled from the spec: the canonical body-id string of a sequence (the
    source of [FlybySequence] is missing), the identities of its bodies in
    order.  The specification leaves the layout open: here the identities
    are written in decimal, with a dash between two of them. *)
Definition toString (seq : FlybySequence) : string :=
  String.concat "-" (map idToString seq).

(** The pieces of [s] between the occurrences of [sep]. *)
Fixpoint splitOn (sep : ascii) (s : string) : list string :=
  match s with
  | EmptyString => [EmptyString]
  | String c rest =>
      if Ascii.eqb c sep
      then EmptyString :: splitOn sep rest
      else match splitOn sep rest with
           | piece :: pieces => String c piece :: pieces
           | [] => [String c EmptyString]
           end
  end.

Fixpoint traverse {A B} (f : A -> option B) (l : list A) : option (list B) :=
  match l with
  | [] => Some []
  | x :: l' =>
      match f x, traverse f l' with
      | Some y, Some ys => Some (y :: ys)
      | _, _ => None
      end
  end.

(** Modelled from the spec: [FlybySequence.fromString] (its source is
    missing).  The text is cut at the dashes, each piece is read as an
    identity, and the sequence is rejected ([None]) when a piece is not a
    number or when the bodies do not make a valid sequence of the system. *)
Definition fromString (sys : System) (text : string) : option FlybySequence :=
  match traverse idOfString (splitOn "-" text) with
  | Some ids => if valid sys ids then Some ids else None
  | None => None
  end.

(** Whether [c] occurs in [s]. *)
Fixpoint occurs (c : ascii) (s : string) : bool :=
  match s with
  | EmptyString => false
  | String c' rest => Ascii.eqb c' c || occurs c rest
  end.

End SequenceText.

(** * The search control protocol

    How a search ends, and what it emits on the way, is decided inside the
    two search components ([src/main/solvers]), which the editor only
    awaits; the specification describes it in sections 4.3, 6 and 7. *)

Module SearchControl.
Import Editor.

Local Open Scope nat_scope.

(** Modelled from the spec: the endings of a search of the core, whose
    source is missing (section 6: success, cancellation, or failure;
    section 7: one clearly distinguishable outcome each). *)
Inductive SearchOutcome (R : Type) : Type :=
| Success (result : R)
| Cancellation
| Failure (description : string).
Arguments Success {R} result.
Arguments Cancellation {R}.
Arguments Failure {R} description.

(** Modelled from the spec: what the core, whose source is missing, lets
    out while a search runs: the progress snapshots handed to the callback
    of the caller (section 4.3: units evaluated, and the total), and its
    record of a failure (section 7).  The controls and the messages of the
    page are the caller's (section 1). *)
Inductive CoreEvent : Type :=
| progressed (evaluated total : nat)
| failureLogged (description : string).

Section Protocol.
(** Modelled from the spec: the state of the computation of a search
    component, and what it returns. *)
Variable Work : Type.
Variable Result : Type.
(** Modelled from the spec: the precondition violation of the request, if
    there is one; it is found before any search work starts (section 7). *)
Variable violation : option string.
(** Modelled from the spec: the work between two checkpoints, one branch of
    the enumerator or one generation of the optimizer (section 4.3);
    numerical faults are absorbed in it (section 7). *)
Variable advance : nat -> Work -> Work.
(** Modelled from the spec: whether the search is over after the work of a
    checkpoint: the enumeration is complete (section 4.1), the optimizer
    has converged (section 4.2). *)
Variable finished : Work -> bool.
(** Modelled from the spec: what a search that ran to its end has to
    return; nothing when it found no valid candidate, which is reported as
    a descriptive failure (section 7, infeasibility). *)
Variable resultOf : Work -> option Result.
Variable infeasibility : string.
(** Modelled from the spec: the number of checkpoints a search may use, and
    the total its snapshots are a fraction of (section 4.2). *)
Variable budget : nat.
(** Modelled from the spec: whether the handle of the caller has been asked
    to cancel when checkpoint [i] looks at it (section 4.3). *)
Variable cancelRequested : nat -> bool.

(** Modelled from the spec: the end of a search that was not cancelled
    (the source of both search components is missing): its result, or the
    failure, which the core records. *)
Definition conclude (w : Work) : list CoreEvent * SearchOutcome Result :=
  match resultOf w with
  | Some r => ([], Success r)
  | None => ([failureLogged infeasibility], Failure infeasibility)
  end.

(** Modelled from the spec: the checkpoints of a search (the source of both
    search components is missing).  Each one first looks at the handle and
    halts with the cancellation outcome when cancellation was requested;
    otherwise it does its work and hands a snapshot to the callback.  The
    search goes on until it is over or [fuel], its budget, is spent. *)
Fixpoint checkpoints (fuel i : nat) (w : Work) : list CoreEvent * SearchOutcome Result :=
  match fuel with
  | O => conclude w
  | S fuel' =>
      if cancelRequested i then ([], Cancellation)
      else
        let w' := advance i w in
        let '(events, out) :=
          if finished w' then conclude w' else checkpoints fuel' (S i) w' in
        (progressed (S i) budget :: events, out)
  end.

(** Modelled from the spec: a search of the core (the source of both search
    components is missing): a precondition violation is a failure before
    any checkpoint; otherwise the checkpoints run from the first one. *)
Definition search (initial : Work) : list CoreEvent * SearchOutcome Result :=
  match violation with
  | Some d => ([failureLogged d], Failure d)
  | None => checkpoints budget 0 initial
  end.

End Protocol.




End SearchControl.

(** * More views of a trace *)

Module TraceKinds.
Import TraceView.

(** The calls by which the editor reports an error: [show] on an error
    message and [console.error]. *)
Definition isReport (c : Call) : bool :=
  match c with
  | show _ _ | console_error _ => true
  | _ => false
  end.

(** The calls that start a search. *)
Definition isSearchCall (c : Call) : bool :=
  match c with
  | generateFlybySequences _ | searchOptimalTrajectory _ _ => true
  | _ => false
  end.

(** [enable] and [disable] on [w]. *)
Definition switches (w : Widget) (c : Call) : bool :=
  match c with
  | enable w' | disable w' => Widget_eqb w w'
  | _ => false
  end.

(** The calls of [resetFoundTrajectory] and [displayFoundTrajectory]: those
    on the result panel, the plot, the trajectory and the time input of the
    system. *)
Definition onResultPanel (c : Call) : bool :=
  match c with
  | enable w | disable w | clear w | select w _ | click w =>
      Widget_eqb w detailsSelector || Widget_eqb w stepSlider
      || Widget_eqb w showTrajDetailsBtn || Widget_eqb w downloadTrajDataBtn
  | systemTime_input | deltaVPlot_reveal
  | trajectory_remove | trajectory_new | trajectory_draw
  | trajectory_fillResultControls | trajectory_updatePodPosition => true
  | _ => false
  end.

(** The order in which [assertSequenceInputs] asserts the four inputs. *)
Definition assertOrder : list IntegerField :=
  [maxBackSpacingInput; maxSwingBysInput; maxResonantInput; maxBackLegsInput].

(** The inputs asserted, in order, until one fails, and its error. *)
Fixpoint firstInvalid (answer : IntegerField -> Outcome unit) (inputs : list IntegerField)
  : list IntegerField * option JsThrown :=
  match inputs with
  | [] => ([], None)
  | i :: rest =>
      match answer i with
      | Thrown err => ([i], Some err)
      | Returned _ =>
          let '(asserted, err) := firstInvalid answer rest in (i :: asserted, err)
      end
  end.

End TraceKinds.

(** * The animation loop

    The first lines of [initEditorWithSystem]: the flag [stop], [stopLoop]
    and [loop], which hands itself to [requestAnimationFrame]. *)

Module AnimationLoop.

Local Open Scope nat_scope.

Inductive FrameCall : Type := controls_update | system_update | renderer_render.

(** The flag [stop], and the number of times [loop] is waiting in the
    callbacks of [requestAnimationFrame]. *)
Record LoopState : Type := mkLoop {
  stop : bool;
  waiting : nat
}.

(** [stopLoop = () => stop = true]. *)
Definition stopLoop (st : LoopState) : LoopState :=
  {| stop := true; waiting := waiting st |}.

(** [requestAnimationFrame(loop)]. *)
Definition requestAnimationFrame (st : LoopState) : LoopState :=
  {| stop := stop st; waiting := S (waiting st) |}.

Definition loop (st : LoopState) : list FrameCall * LoopState :=
  ([controls_update; system_update; renderer_render],
   if negb (stop st) then requestAnimationFrame st else st).

(** The state once [initEditorWithSystem] has made its first request. *)
Definition started : LoopState :=
  requestAnimationFrame {| stop := false; waiting := 0 |}.

(** [n] runs of [loop], one after the other. *)
Fixpoint runLoop (n : nat) (st : LoopState) : list FrameCall * LoopState :=
  match n with
  | O => ([], st)
  | S n' =>
      let '(c1, st1) := loop st in
      let '(c2, st2) := runLoop n' st1 in
      (c1 ++ c2, st2)
  end.

(** A frame of the browser runs the callbacks that were waiting when it
    began; those requested meanwhile wait for the next frame. *)
Definition frame (st : LoopState) : list FrameCall * LoopState :=
  runLoop (waiting st) {| stop := stop st; waiting := 0 |}.

Inductive Event : Type := Frame | StopLoop.

Definition isFrame (e : Event) : bool :=
  match e with
  | Frame => true
  | StopLoop => false
  end.

Definition react (st : LoopState) (e : Event) : list FrameCall * LoopState :=
  match e with
  | Frame => frame st
  | StopLoop => ([], stopLoop st)
  end.

Fixpoint run (st : LoopState) (events : list Event) : list FrameCall * LoopState :=
  match events with
  | [] => ([], st)
  | e :: rest =>
      let '(c1, st1) := react st e in
      let '(c2, st2) := run st1 rest in
      (c1 ++ c2, st2)
  end.

End AnimationLoop.

(** ** More pages to run the handlers on *)

Module MoreSamples.
Import Editor Samples.

(** A page from kerbin to duna with the given custom text, selected
    sequence, answers of the three validations, and departure window. *)
Definition form (custom : string) (selected : option FlybySequence)
           (startOk endOk durationOk : bool) (windowStart windowEnd : Q) : Dom :=
  {| originBody := kerbin;
     destBody := duna;
     assertValidity_of := fun _ => Returned tt;
     validate_of := fun _ => durationOk;
     value_of := fun _ => 100%Z;
     value_after_setMinMax := fun _ _ _ => 100%Z;
     customSequence_value := custom;
     sequenceSelector_sequence := selected;
     time_validate_of := fun t => match t with
                                  | timeRangeStart => startOk
                                  | timeRangeEnd => endOk
                                  end;
     dateSeconds := fun t => match t with
                             | timeRangeStart => windowStart
                             | timeRangeEnd => windowEnd
                             end;
     useMaxDuration_checked := false;
     noInsertionBox_checked := false;
     config_time_type := "base";
     config_time_hoursPerDay := 6 # 1 |}.

Definition dunaToKerbin : FlybySequence :=
  {| bodies := [duna; kerbin]; seq_length := 2 |}.

(** A parser that knows one text. *)
Definition oneText (text : string) : Outcome FlybySequence :=
  if String.eqb text "Du-Ke"
  then Returned dunaToKerbin
  else Thrown (JsError "Invalid custom sequence input.").

Definition failingSolver (_ : FlybySequence) (_ : TrajectoryUserSettings)
  : Outcome unit :=
  Thrown (JsError "No feasible trajectory.").

Definition failingGenerator (_ : SequenceParameters) : GeneratorRun :=
  {| progress := []; settled := Thrown (JsError "Worker failed.") |}.

(** A closure in which a trajectory was found before. *)
Definition foundClosure : Closure :=
  {| trajectory := true; trajectoryCounter := 1;
     depAltitude_range := None; destAltitude_range := None |}.

Definition sampleSettings : TrajectoryUserSettings :=
  {| startDate := 0; endDate := 1;
     depAltitude := 100000; destAltitude := 100000;
     noInsertion := false; maxDuration := None |}.

End MoreSamples.

(** * Properties of the editor's handlers *)

Module EditorFacts.
Import Editor TraceView.

Local Open Scope js_scope.

Section Facts.
Variable dom : Dom.
Variable generator : SequenceParameters -> GeneratorRun.
Variable FlybySequence_fromString : string -> Outcome FlybySequence.
Variable solver : FlybySequence -> TrajectoryUserSettings -> Outcome unit.

(** The progress callbacks only write the progress message. *)
Lemma forEach_onProgress (l : list (Z * Z)) (s : Closure) :
  forEach l onProgress s
  = (map (fun r => progressMsg_setMessage (percentOf r)) l, Returned tt, s).
Proof.
  induction l as [|r l IH]; [reflexivity|].
  cbn [forEach map]. unfold bind at 1. unfold onProgress at 1, call at 1.
  rewrite IH. reflexivity.
Qed.

(** A handler is its [try] block after two calls, then its [catch] and its
    [finally]; it never throws. *)
Lemma handler_run (k : Search) (s : Closure) :
  handler dom generator FlybySequence_fromString solver k s
  = ([hide (errorMessageOf k); disable systemSelector]
       ++ calls (tryBlock dom generator FlybySequence_fromString solver k) s
       ++ catchCalls (errorMessageOf k) (cancelMessage k)
            (outcome (tryBlock dom generator FlybySequence_fromString solver k) s)
       ++ finallyCalls k,
     Returned tt,
     final (tryBlock dom generator FlybySequence_fromString solver k) s).
Proof.
  unfold calls, outcome, final.
  destruct k; cbn [handler tryBlock errorMessageOf cancelMessage finallyCalls];
    [unfold generateSequences | unfold findTrajectory];
    unfold bind, call, try_catch_finally, when, catchCalls.
  - destruct (generateSequences_try dom generator s) as [[t [[]|err]] s1]; cbn.
    + reflexivity.
    + destruct (instanceofError err && negb (messageIs err "WORKER CANCELLED")); reflexivity.
  - destruct (findTrajectory_try dom FlybySequence_fromString solver s) as [[t [[]|err]] s1]; cbn.
    + reflexivity.
    + destruct (instanceofError err && negb (messageIs err "TRAJECTORY FINDER CANCELLED"));
        reflexivity.
Qed.

Lemma onclick_run (k : Search) (s : Closure) :
  onclick dom generator FlybySequence_fromString solver k s
  = ([disable (button k)]
       ++ calls (handler dom generator FlybySequence_fromString solver k) s
       ++ [enable (button k)],
     Returned tt,
     final (handler dom generator FlybySequence_fromString solver k) s).
Proof.
  unfold calls, final.
  destruct k; cbn [onclick button];
    [unfold seqGenBtn_onclick | unfold searchStartBtn_onclick];
    unfold bind at 1; unfold call at 1; unfold bind at 1.
  - change (Editor.generateSequences dom generator)
      with (handler dom generator FlybySequence_fromString solver SequenceGeneration).
    rewrite handler_run. reflexivity.
  - change (Editor.findTrajectory dom FlybySequence_fromString solver)
      with (handler dom generator FlybySequence_fromString solver TrajectorySearch).
    rewrite handler_run. reflexivity.
Qed.

(** *** The sequence generation panel *)

Lemma assertValidityOf_run (i : IntegerField) (s : Closure) :
  assertValidityOf dom i s = ([assertValidity i], assertValidity_of dom i, s).
Proof.
  unfold assertValidityOf, bind, call, settle.
  destruct (assertValidity_of dom i) as [[]|err]; reflexivity.
Qed.

(** [assertSequenceInputs] calls nothing but [assertValidity] and leaves the
    closure variables alone. *)
Lemma assertSequenceInputs_frame (s : Closure) :
  final (assertSequenceInputs dom) s = s /\
  forall c, In c (calls (assertSequenceInputs dom) s) -> exists i, c = assertValidity i.
Proof.
  unfold final, calls, assertSequenceInputs, assertValidityOf,
    bind, call, settle, throw, ret.
  destruct (assertValidity_of dom maxBackSpacingInput) as [[]|?],
    (assertValidity_of dom maxSwingBysInput) as [[]|?],
    (assertValidity_of dom maxResonantInput) as [[]|?],
    (assertValidity_of dom maxBackLegsInput) as [[]|?],
    (negb (attractor_id (originBody dom) =? attractor_id (destBody dom))%Z),
    (body_id (originBody dom) =? body_id (destBody dom))%Z;
    cbn; (split; [reflexivity|]); intros c Hc; intuition eauto.
Qed.

(** With mismatched attractors, or with the same body at both ends,
    [assertSequenceInputs] throws. *)
Lemma assertSequenceInputs_rejects (s : Closure) :
  attractor_id (originBody dom) <> attractor_id (destBody dom)
  \/ body_id (originBody dom) = body_id (destBody dom) ->
  exists err, outcome (assertSequenceInputs dom) s = Thrown err.
Proof.
  intros Hpre.
  unfold outcome, assertSequenceInputs, assertValidityOf,
    bind, call, settle, throw, ret.
  destruct (assertValidity_of dom maxBackSpacingInput) as [[]|?],
    (assertValidity_of dom maxSwingBysInput) as [[]|?],
    (assertValidity_of dom maxResonantInput) as [[]|?],
    (assertValidity_of dom maxBackLegsInput) as [[]|?];
    cbn; eauto.
  destruct (Z.eqb_spec (attractor_id (originBody dom)) (attractor_id (destBody dom)));
    cbn; [| eauto].
  destruct (Z.eqb_spec (body_id (originBody dom)) (body_id (destBody dom)));
    cbn; [eauto | tauto].
Qed.

(** When the four inputs are valid, the two checks on the bodies decide, the
    attractors first. *)
Lemma assertSequenceInputs_valid (s : Closure) :
  (forall i, assertValidity_of dom i = Returned tt) ->
  outcome (assertSequenceInputs dom) s =
  if negb (attractor_id (originBody dom) =? attractor_id (destBody dom))%Z
  then Thrown (JsError "Origin and destination bodies must orbit the same body.")
  else if (body_id (originBody dom) =? body_id (destBody dom))%Z
       then Thrown (JsError "Same origin and destination bodies.")
       else Returned tt.
Proof.
  intros Hvalid.
  unfold outcome, assertSequenceInputs, assertValidityOf,
    bind, call, settle, throw, ret.
  rewrite !Hvalid.
  destruct (negb (attractor_id (originBody dom) =? attractor_id (destBody dom))%Z),
    (body_id (originBody dom) =? body_id (destBody dom))%Z; reflexivity.
Qed.

Lemma runSequenceGeneration_run (s : Closure) :
  runSequenceGeneration dom generator s
  = (generateFlybySequences (sequenceParams dom)
       :: map (fun r => progressMsg_setMessage (percentOf r))
              (progress (generator (sequenceParams dom)))
       ++ match settled (generator (sequenceParams dom)) with
          | Returned sequences => [fillFrom sequences]
          | Thrown _ => []
          end,
     match settled (generator (sequenceParams dom)) with
     | Returned _ => Returned tt
     | Thrown err => Thrown err
     end,
     s).
Proof.
  unfold runSequenceGeneration.
  unfold bind at 1. unfold call at 1.
  unfold bind at 1. rewrite forEach_onProgress.
  unfold bind, settle, call.
  destruct (settled (generator (sequenceParams dom))) as [sequences|err];
    cbn; rewrite ?app_nil_r; reflexivity.
Qed.

Lemma generateSequences_try_run (s : Closure) :
  generateSequences_try dom generator s
  = match outcome (assertSequenceInputs dom) s with
    | Thrown err =>
        ([disable sequenceSelector; clear sequenceSelector; progressMsg_enable 1000]
           ++ calls (assertSequenceInputs dom) s,
         Thrown err, s)
    | Returned _ =>
        ([disable sequenceSelector; clear sequenceSelector; progressMsg_enable 1000]
           ++ calls (assertSequenceInputs dom) s
           ++ calls (runSequenceGeneration dom generator) s
           ++ match settled (generator (sequenceParams dom)) with
              | Returned _ => [enable sequenceSelector]
              | Thrown _ => []
              end,
         outcome (runSequenceGeneration dom generator) s, s)
    end.
Proof.
  pose proof (assertSequenceInputs_frame s) as [Hfin _].
  unfold final, outcome, calls in *.
  unfold generateSequences_try.
  do 3 (unfold bind at 1; unfold call at 1).
  unfold bind at 1.
  destruct (assertSequenceInputs dom s) as [[t [[]|err]] s1]; cbn in Hfin; subst s1;
    cbn [fst snd]; [| reflexivity].
  unfold bind at 1. rewrite runSequenceGeneration_run.
  destruct (settled (generator (sequenceParams dom))) as [sequences|err];
    cbn; rewrite ?app_nil_r, <- ?app_assoc; reflexivity.
Qed.

(** *** The trajectory search panel *)

(** Case analysis on whatever the run branches on next. *)
Ltac js_case :=
  match goal with
  | |- context [match ?x with _ => _ end] =>
      lazymatch x with
      | context [match _ with _ => _ end] => fail
      | _ => destruct x eqn:?
      end
  end.

Ltac js_unfold :=
  unfold calls, outcome, final, findTrajectory_try, chosenSequence, dereference,
    bodyBefore, updateAltitudeRange, input_setMinMax, input_value, rangeOf,
    validateTime, validateInput, resetFoundTrajectory,
    displayFoundTrajectory, when, bind, call, settle, throw, ret, get, put.


(** *** What a click calls *)

Lemma in_handler_calls (k : Search) (s : Closure) (c : Call) :
  In c (calls (handler dom generator FlybySequence_fromString solver k) s) <->
  c = hide (errorMessageOf k) \/ c = disable systemSelector
  \/ In c (calls (tryBlock dom generator FlybySequence_fromString solver k) s)
  \/ In c (catchCalls (errorMessageOf k) (cancelMessage k)
             (outcome (tryBlock dom generator FlybySequence_fromString solver k) s))
  \/ In c (finallyCalls k).
Proof.
  unfold calls at 1. rewrite handler_run. cbn [fst].
  rewrite !in_app_iff. cbn [In]. intuition congruence.
Qed.

Lemma in_onclick_calls (k : Search) (s : Closure) (c : Call) :
  In c (calls (onclick dom generator FlybySequence_fromString solver k) s) <->
  c = disable (button k)
  \/ In c (calls (handler dom generator FlybySequence_fromString solver k) s)
  \/ c = enable (button k).
Proof.
  unfold calls at 1. rewrite onclick_run. cbn [fst].
  rewrite !in_app_iff. cbn [In]. intuition congruence.
Qed.

Lemma in_catchCalls (e : ErrorMessage) (m : string) (o : Outcome unit) (c : Call) :
  In c (catchCalls e m o) ->
  exists err, o = Thrown err /\
    (c = console_error err
     \/ (c = show e err /\ instanceofError err = true /\ messageIs err m = false)).
Proof.
  destruct o as [[]|err]; cbn; [tauto|].
  destruct (instanceofError err) eqn:Hi, (messageIs err m) eqn:Hm; cbn;
    intros H; exists err; intuition auto.
Qed.

Lemma in_finallyCalls (k : Search) (c : Call) :
  In c (finallyCalls k) -> c = progressMsg_hide \/ c = enable systemSelector.
Proof. destruct k; cbn; intuition auto. Qed.

Lemma in_generateSequences_try (s : Closure) (c : Call) :
  In c (calls (generateSequences_try dom generator) s) ->
  c = disable sequenceSelector \/ c = clear sequenceSelector
  \/ c = progressMsg_enable 1000
  \/ (exists i, c = assertValidity i)
  \/ (outcome (assertSequenceInputs dom) s = Returned tt /\
      (c = generateFlybySequences (sequenceParams dom)
       \/ (exists r, c = progressMsg_setMessage (percentOf r))
       \/ (exists sequences,
             settled (generator (sequenceParams dom)) = Returned sequences /\
             (c = fillFrom sequences \/ c = enable sequenceSelector)))).
Proof.
  pose proof (assertSequenceInputs_frame s) as [_ Hassert].
  unfold calls at 1. rewrite generateSequences_try_run.
  destruct (outcome (assertSequenceInputs dom) s) as [[]|err] eqn:Ho; cbn [fst].
  - rewrite !in_app_iff. unfold calls at 2. rewrite runSequenceGeneration_run.
    cbn [fst In]. rewrite in_app_iff, in_map_iff.
    destruct (settled (generator (sequenceParams dom))) as [sequences|e]; cbn [In].
    + intros [H|[H|[H|H]]].
      * intuition auto.
      * right; right; right; left. auto.
      * right; right; right; right. split; [reflexivity|].
        destruct H as [H|[(r & H & _)|[H|[]]]]; subst; eauto 8.
      * destruct H as [H|[]]. subst. right; right; right; right. eauto 8.
    + intros [H|[H|[H|[]]]].
      * intuition auto.
      * right; right; right; left. auto.
      * right; right; right; right. split; [reflexivity|].
        destruct H as [H|[(r & H & _)|[]]]; subst; eauto 8.
  - rewrite !in_app_iff. cbn [In]. intros [H|H]; [intuition auto|].
    right; right; right; left. auto.
Qed.

(** *** Restoring the controls *)

Lemma enabledAfter_app (w : Widget) (known : option bool) (tr1 tr2 : Trace) :
  enabledAfter w known (tr1 ++ tr2) = enabledAfter w (enabledAfter w known tr1) tr2.
Proof.
  revert known. induction tr1 as [|c tr1 IH]; intros known; [reflexivity|].
  destruct c; cbn; apply IH.
Qed.

Lemma progressShownAfter_app (known : option bool) (tr1 tr2 : Trace) :
  progressShownAfter known (tr1 ++ tr2)
  = progressShownAfter (progressShownAfter known tr1) tr2.
Proof.
  revert known. induction tr1 as [|c tr1 IH]; intros known; [reflexivity|].
  destruct c; cbn; apply IH.
Qed.

(** C10. Every run of [generateSequences] and of [findTrajectory] returns
    without throwing, whatever the inputs and however the search ended, and
    its last calls are those of the [finally] block: the progress message is
    hidden (for the generation) and the system selector enabled.  The click
    handler of the button then enables the button again as its last call, so
    after a click the system selector and the button are both enabled. *)
Theorem controls_restored_after_every_run (k : Search) (s : Closure) :
  outcome (handler dom generator FlybySequence_fromString solver k) s = Returned tt
  /\ (exists before,
         calls (handler dom generator FlybySequence_fromString solver k) s
         = before ++ finallyCalls k)
  /\ outcome (onclick dom generator FlybySequence_fromString solver k) s = Returned tt
  /\ (exists before,
         calls (onclick dom generator FlybySequence_fromString solver k) s
         = disable (button k) :: before ++ finallyCalls k ++ [enable (button k)])
  /\ enabledAfter systemSelector None
       (calls (onclick dom generator FlybySequence_fromString solver k) s) = Some true
  /\ enabledAfter (button k) None
       (calls (onclick dom generator FlybySequence_fromString solver k) s) = Some true
  /\ (k = SequenceGeneration ->
      progressShownAfter None
        (calls (onclick dom generator FlybySequence_fromString solver k) s) = Some false).
Proof.
  unfold outcome, calls. rewrite onclick_run. unfold calls. rewrite handler_run.
  cbn [fst snd].
  set (body := calls (tryBlock dom generator FlybySequence_fromString solver k) s).
  set (caught := catchCalls _ _ _).
  split; [reflexivity|].
  split; [exists ([hide (errorMessageOf k); disable systemSelector] ++ body ++ caught);
          rewrite <- !app_assoc; reflexivity|].
  split; [reflexivity|].
  split; [exists ([hide (errorMessageOf k); disable systemSelector] ++ body ++ caught);
          cbn; rewrite <- !app_assoc; reflexivity|].
  assert (Hshape :
    [disable (button k)]
      ++ ([hide (errorMessageOf k); disable systemSelector]
            ++ body ++ caught ++ finallyCalls k)
      ++ [enable (button k)]
    = ([disable (button k); hide (errorMessageOf k); disable systemSelector]
         ++ body ++ caught)
        ++ finallyCalls k ++ [enable (button k)]).
  { cbn. rewrite <- !app_assoc. reflexivity. }
  rewrite Hshape. clear Hshape.
  split; [| split].
  - rewrite enabledAfter_app. destruct k; reflexivity.
  - rewrite enabledAfter_app. destruct k; reflexivity.
  - intros ->. rewrite progressShownAfter_app. reflexivity.
Qed.

(** *** Preconditions of the sequence generation *)

(** C4. When the origin and the destination do not orbit the same body, or
    are the same body, [assertSequenceInputs] throws; it runs before
    [runSequenceGeneration], so the click calls nothing but the widgets and
    the four [assertValidity] before the error reaches the [catch], and
    [generator.generateFlybySequences] is never called. *)
Theorem precondition_violation_never_starts_generator (s : Closure) :
  attractor_id (originBody dom) <> attractor_id (destBody dom)
  \/ body_id (originBody dom) = body_id (destBody dom) ->
  exists err,
    outcome (assertSequenceInputs dom) s = Thrown err
    /\ calls (generateSequences dom generator) s
       = [hide sequenceParamsErr; disable systemSelector;
          disable sequenceSelector; clear sequenceSelector; progressMsg_enable 1000]
         ++ calls (assertSequenceInputs dom) s
         ++ catchCalls sequenceParamsErr "WORKER CANCELLED" (Thrown err)
         ++ [progressMsg_hide; enable systemSelector]
    /\ (forall params,
          ~ In (generateFlybySequences params)
               (calls (seqGenBtn_onclick dom generator) s)).
Proof.
  intros Hpre.
  destruct (assertSequenceInputs_rejects s Hpre) as [err Herr].
  exists err. split; [exact Herr|].
  pose proof (handler_run SequenceGeneration s) as Hrun.
  cbn [handler tryBlock errorMessageOf cancelMessage finallyCalls] in Hrun.
  pose proof (generateSequences_try_run s) as Htry. rewrite Herr in Htry.
  split.
  - unfold calls at 1. rewrite Hrun. unfold calls at 1, outcome at 1.
    rewrite Htry. cbn [fst snd]. cbn. rewrite <- !app_assoc. reflexivity.
  - intros params Hin.
    apply (in_onclick_calls SequenceGeneration) in Hin.
    cbn [button] in Hin. destruct Hin as [Hin|[Hin|Hin]]; try discriminate.
    apply in_handler_calls in Hin.
    destruct Hin as [Hin|[Hin|[Hin|[Hin|Hin]]]]; try discriminate.
    + cbn [tryBlock] in Hin. apply in_generateSequences_try in Hin.
      destruct Hin as [Hin|[Hin|[Hin|[[i Hin]|[Hok _]]]]]; try discriminate.
      congruence.
    + apply in_catchCalls in Hin.
      destruct Hin as (e & _ & [Hin|[Hin _]]); discriminate.
    + apply in_finallyCalls in Hin. destruct Hin; discriminate.
Qed.

(** *** Cancellation *)

Lemma filter_none {A} (f : A -> bool) (l : list A) :
  (forall x, In x l -> f x = false) -> filter f l = [].
Proof.
  induction l as [|x l IH]; intros H; [reflexivity|].
  cbn. rewrite (H x (or_introl eq_refl)). apply IH. intros y Hy. apply H. now right.
Qed.




(** C6. When the promise of [generator.generateFlybySequences] is rejected
    with the cancellation error, [runSequenceGeneration] ends with that error
    and not with a result; the click never calls [fillFrom] nor [enable] on
    the sequence selector, on which it only calls [disable] and [clear]. *)
Theorem cancelled_generation_fills_nothing (s : Closure) :
  settled (generator (sequenceParams dom)) = Thrown (JsError "WORKER CANCELLED") ->
  outcome (runSequenceGeneration dom generator) s = Thrown (JsError "WORKER CANCELLED")
  /\ (forall sequences,
         ~ In (fillFrom sequences) (calls (seqGenBtn_onclick dom generator) s))
  /\ ~ In (enable sequenceSelector) (calls (seqGenBtn_onclick dom generator) s)
  /\ filter onSequenceSelector (calls (seqGenBtn_onclick dom generator) s)
     = [disable sequenceSelector; clear sequenceSelector].
Proof.
  intros Hcancel.
  assert (Hreach : forall c,
             In c (calls (seqGenBtn_onclick dom generator) s) ->
             c = disable sequenceSelector \/ c = clear sequenceSelector
             \/ onSequenceSelector c = false).
  { intros c Hin.
    apply (in_onclick_calls SequenceGeneration) in Hin. cbn [button] in Hin.
    destruct Hin as [->|[Hin| ->]]; [now right; right| |now right; right].
    apply in_handler_calls in Hin.
    destruct Hin as [->|[->|[Hin|[Hin|Hin]]]]; [now right; right|now right; right| | |].
    - cbn [tryBlock] in Hin. apply in_generateSequences_try in Hin.
      rewrite Hcancel in Hin.
      destruct Hin as [->|[->|[->|[[i ->]|[_ [->|[[r ->]|(sq & Hsq & _)]]]]]]];
        auto; discriminate.
    - apply in_catchCalls in Hin.
      destruct Hin as (e & _ & [->|[-> _]]); now right; right.
    - apply in_finallyCalls in Hin. destruct Hin as [->| ->]; now right; right. }
  split; [| split; [| split]].
  - unfold outcome. rewrite runSequenceGeneration_run, Hcancel. reflexivity.
  - intros sequences Hin. destruct (Hreach _ Hin) as [H|[H|H]]; discriminate.
  - intros Hin. destruct (Hreach _ Hin) as [H|[H|H]]; discriminate.
  - change (seqGenBtn_onclick dom generator)
      with (onclick dom generator FlybySequence_fromString solver SequenceGeneration).
    unfold calls. rewrite onclick_run. cbn [fst button].
    unfold calls. rewrite handler_run. cbn [fst tryBlock errorMessageOf cancelMessage].
    unfold calls, outcome. rewrite generateSequences_try_run.
    pose proof (assertSequenceInputs_frame s) as [_ Hassert].
    assert (Hnone : filter onSequenceSelector (calls (assertSequenceInputs dom) s) = []).
    { apply filter_none. intros c Hc. destruct (Hassert c Hc) as [i ->]. reflexivity. }
    destruct (outcome (assertSequenceInputs dom) s) as [[]|err] eqn:Ho; cbn [fst snd].
    + unfold calls at 2, outcome. rewrite runSequenceGeneration_run, Hcancel.
      cbn [fst snd]. rewrite app_nil_r, !filter_app, Hnone.
      rewrite (filter_none onSequenceSelector (generateFlybySequences _ :: _)).
      * reflexivity.
      * intros c [<-|Hc]; [reflexivity|].
        rewrite app_nil_r in Hc.
        apply in_map_iff in Hc. destruct Hc as (r & <- & _). reflexivity.
    + rewrite !filter_app, Hnone.
      rewrite (filter_none onSequenceSelector (catchCalls _ _ _)).
      * reflexivity.
      * intros c Hc. apply in_catchCalls in Hc.
        destruct Hc as (e & _ & [->|[-> _]]); reflexivity.
Qed.

(** *** The departure window *)

Lemma Qltb_lt (x y : Q) : Qltb x y = true <-> (x < y)%Q.
Proof.
  unfold Qltb. rewrite negb_true_iff. split.
  - intros H. apply Qnot_le_lt. intros Hle.
    apply Qle_bool_iff in Hle. congruence.
  - intros H. destruct (Qle_bool y x) eqn:E; [| reflexivity].
    apply Qle_bool_iff in E. exfalso. exact (Qlt_not_le _ _ H E).
Qed.

Lemma Qltb_eq (x y : Q) : (x == y)%Q -> Qltb x y = false.
Proof.
  intros H. destruct (Qltb x y) eqn:E; [| reflexivity].
  apply Qltb_lt in E. rewrite H in E. exfalso. exact (Qlt_irrefl _ E).
Qed.

Lemma no_solver_call_outside_try (k : Search) (s : Closure)
      (sq : FlybySequence) (st : TrajectoryUserSettings) :
  In (searchOptimalTrajectory sq st)
     (calls (onclick dom generator FlybySequence_fromString solver k) s) ->
  In (searchOptimalTrajectory sq st)
     (calls (tryBlock dom generator FlybySequence_fromString solver k) s).
Proof.
  intros Hin.
  apply in_onclick_calls in Hin. destruct Hin as [Hin|[Hin|Hin]]; try discriminate.
  apply in_handler_calls in Hin.
  destruct Hin as [Hin|[Hin|[Hin|[Hin|Hin]]]]; try discriminate.
  - exact Hin.
  - apply in_catchCalls in Hin. destruct Hin as (e & _ & [Hin|[Hin _]]); discriminate.
  - apply in_finallyCalls in Hin. destruct Hin; discriminate.
Qed.

(** C5. When the end of the departure window is before its start, the [try]
    block of [findTrajectory] throws, and the click never calls
    [solver.searchOptimalTrajectory]. *)
Theorem inverted_window_never_reaches_solver (s : Closure) :
  (dateSeconds dom timeRangeEnd < dateSeconds dom timeRangeStart)%Q ->
  (exists err,
      outcome (findTrajectory_try dom FlybySequence_fromString solver) s = Thrown err)
  /\ (forall sq st,
         ~ In (searchOptimalTrajectory sq st)
              (calls (searchStartBtn_onclick dom FlybySequence_fromString solver) s)).
Proof.
  intros Hlt. apply Qltb_lt in Hlt. split.
  - js_unfold. rewrite Hlt.
    repeat (js_case; cbn); eauto.
  - intros sq st Hin.
    apply (no_solver_call_outside_try TrajectorySearch) in Hin.
    cbn [tryBlock] in Hin. revert Hin.
    js_unfold. rewrite Hlt.
    repeat (js_case; cbn); intuition discriminate.
Qed.

Lemma chosenSequence_frame (s : Closure) :
  final (chosenSequence dom FlybySequence_fromString) s = s.
Proof.
  unfold final, chosenSequence, bind, call, settle, ret.
  repeat (js_case; cbn); reflexivity.
Qed.

(** C8. Take a run in which a sequence with a first and a last body is
    chosen and the two dates and the duration limit are valid.  If the end of
    the window is before its start, the [try] block throws the error whose
    message asks for an end greater than the start.  In every other case,
    and so when the two dates are equal, [solver.searchOptimalTrajectory] is
    called, with these two dates in its settings. *)
Theorem equal_dates_reach_solver
        (s : Closure) (sq : FlybySequence) (first last : OrbitingBody) :
  outcome (chosenSequence dom FlybySequence_fromString) s = Returned (Some sq) ->
  nth_error (bodies sq) 0 = Some first ->
  bodyBefore sq (seq_length sq) = Some last ->
  time_validate_of dom timeRangeStart = true ->
  time_validate_of dom timeRangeEnd = true ->
  validate_of dom maxDurationInput = true ->
  let settings :=
    {| startDate := dateSeconds dom timeRangeStart;
       endDate := dateSeconds dom timeRangeEnd;
       depAltitude :=
         value_after_setMinMax dom depAltitudeInput 0 (altitudeMax first) * 1000;
       destAltitude :=
         value_after_setMinMax dom destAltitudeInput 0 (altitudeMax last) * 1000;
       noInsertion := noInsertionBox_checked dom;
       maxDuration := maxDurationSeconds dom |} in
  ((dateSeconds dom timeRangeEnd < dateSeconds dom timeRangeStart)%Q ->
   outcome (findTrajectory_try dom FlybySequence_fromString solver) s
   = Thrown (JsError "Departure date range end must be greater than the start date."))
  /\ (~ (dateSeconds dom timeRangeEnd < dateSeconds dom timeRangeStart)%Q ->
      In (searchOptimalTrajectory sq settings)
         (calls (findTrajectory dom FlybySequence_fromString solver) s))
  /\ ((dateSeconds dom timeRangeEnd == dateSeconds dom timeRangeStart)%Q ->
      In (searchOptimalTrajectory sq settings)
         (calls (findTrajectory dom FlybySequence_fromString solver) s)).
Proof.
  intros Hseq Hfirst Hlast Hstart Hend Hduration settings.
  pose proof (chosenSequence_frame s) as Hframe.
  unfold outcome in Hseq. unfold final in Hframe.
  destruct (chosenSequence dom FlybySequence_fromString s) as [[tr o] s'] eqn:Hchosen.
  cbn in Hseq, Hframe. subst o s'.
  assert (Hcalled :
            Qltb (dateSeconds dom timeRangeEnd) (dateSeconds dom timeRangeStart) = false ->
            In (searchOptimalTrajectory sq settings)
               (calls (findTrajectory dom FlybySequence_fromString solver) s)).
  { intros Hge.
    apply (in_handler_calls TrajectorySearch). right; right; left. cbn [tryBlock].
    unfold calls, findTrajectory_try. unfold bind at 1. rewrite Hchosen.
    unfold dereference, bodyBefore, updateAltitudeRange, input_setMinMax, input_value,
      rangeOf, validateTime, validateInput, resetFoundTrajectory,
      displayFoundTrajectory, when, bind, call, settle, throw, ret, get, put.
    unfold bodyBefore in Hlast.
    rewrite Hfirst, Hlast, Hstart, Hend, Hduration, Hge. cbn.
    repeat (js_case; cbn); rewrite in_app_iff; right; cbn; auto 20. }
  split; [| split].
  - intros Hlt. apply Qltb_lt in Hlt.
    unfold outcome, findTrajectory_try. unfold bind at 1. rewrite Hchosen.
    unfold dereference, bodyBefore, updateAltitudeRange, input_setMinMax, input_value,
      rangeOf, validateTime, validateInput, resetFoundTrajectory,
      displayFoundTrajectory, when, bind, call, settle, throw, ret, get, put.
    unfold bodyBefore in Hlast.
    rewrite Hfirst, Hlast, Hstart, Hend, Hlt. reflexivity.
  - intros Hnlt. apply Hcalled.
    destruct (Qltb _ _) eqn:E; [| reflexivity].
    apply Qltb_lt in E. contradiction.
  - intros Heq. apply Hcalled, Qltb_eq. exact Heq.
Qed.

(** *** The altitude inputs *)

(** What the editor itself does with the two altitude inputs: under the
    conditions of the theorem above, each is given the range from 0 to
    [altitudeMax] of the first, respectively the last, body of the sequence
    before the dates are looked at. *)
Lemma altitude_ranges_set_from_sequence
      (s : Closure) (sq : FlybySequence) (first last : OrbitingBody) :
  outcome (chosenSequence dom FlybySequence_fromString) s = Returned (Some sq) ->
  nth_error (bodies sq) 0 = Some first ->
  bodyBefore sq (seq_length sq) = Some last ->
  In (setMinMax depAltitudeInput 0 (altitudeMax first))
     (calls (findTrajectory_try dom FlybySequence_fromString solver) s)
  /\ In (setMinMax destAltitudeInput 0 (altitudeMax last))
        (calls (findTrajectory_try dom FlybySequence_fromString solver) s).
Proof.
  intros Hseq Hfirst Hlast.
  pose proof (chosenSequence_frame s) as Hframe.
  unfold outcome in Hseq. unfold final in Hframe.
  destruct (chosenSequence dom FlybySequence_fromString s) as [[tr o] s'] eqn:Hchosen.
  cbn in Hseq, Hframe. subst o s'.
  unfold bodyBefore in Hlast.
  split;
    unfold calls, findTrajectory_try; unfold bind at 1; rewrite Hchosen;
    unfold dereference, bodyBefore, updateAltitudeRange, input_setMinMax, input_value,
      rangeOf, validateTime, validateInput, resetFoundTrajectory,
      displayFoundTrajectory, when, bind, call, settle, throw, ret, get, put;
    rewrite Hfirst, Hlast; cbn;
    repeat (js_case; cbn); rewrite in_app_iff; right; cbn; auto 20.
Qed.

End Facts.

(** *** The theorems at work on a page *)

Import Samples.

Lemma precondition_violation_never_starts_generator_witness :
  exists err,
    outcome (assertSequenceInputs (page kerbin mun 0 1)) freshClosure = Thrown err
    /\ calls (generateSequences (page kerbin mun 0 1) directGenerator) freshClosure
       = [hide sequenceParamsErr; disable systemSelector;
          disable sequenceSelector; clear sequenceSelector; progressMsg_enable 1000]
         ++ calls (assertSequenceInputs (page kerbin mun 0 1)) freshClosure
         ++ catchCalls sequenceParamsErr "WORKER CANCELLED" (Thrown err)
         ++ [progressMsg_hide; enable systemSelector]
    /\ (forall params,
          ~ In (generateFlybySequences params)
               (calls (seqGenBtn_onclick (page kerbin mun 0 1) directGenerator)
                      freshClosure)).
Proof.
  apply (precondition_violation_never_starts_generator
           (page kerbin mun 0 1) directGenerator noParser quietSolver freshClosure).
  left. cbn. discriminate.
Defined.

Lemma cancelled_generation_fills_nothing_witness :
  filter onSequenceSelector
    (calls (seqGenBtn_onclick (page kerbin duna 0 1) cancelledGenerator) freshClosure)
  = [disable sequenceSelector; clear sequenceSelector].
Proof.
  apply (cancelled_generation_fills_nothing
           (page kerbin duna 0 1) cancelledGenerator noParser quietSolver freshClosure).
  reflexivity.
Defined.

Lemma inverted_window_never_reaches_solver_witness :
  (exists err,
      outcome (findTrajectory_try (page kerbin duna (10 # 1) (5 # 1)) noParser quietSolver)
              freshClosure = Thrown err)
  /\ (forall sq st,
         ~ In (searchOptimalTrajectory sq st)
              (calls (searchStartBtn_onclick (page kerbin duna (10 # 1) (5 # 1))
                                             noParser quietSolver) freshClosure)).
Proof.
  apply (inverted_window_never_reaches_solver
           (page kerbin duna (10 # 1) (5 # 1)) directGenerator noParser quietSolver
           freshClosure).
  reflexivity.
Defined.

Lemma equal_dates_reach_solver_witness :
  In (searchOptimalTrajectory kerbinToDuna
        {| startDate := 10 # 1; endDate := 10 # 1;
           depAltitude := 100000; destAltitude := 100000;
           noInsertion := false; maxDuration := None |})
     (calls (findTrajectory (page kerbin duna (10 # 1) (10 # 1)) noParser quietSolver)
            freshClosure).
Proof.
  destruct (equal_dates_reach_solver
              (page kerbin duna (10 # 1) (10 # 1)) directGenerator noParser quietSolver
              freshClosure kerbinToDuna kerbin duna)
    as (_ & _ & Hequal); try reflexivity.
  apply Hequal. reflexivity.
Defined.

End EditorFacts.


(** * Properties of the sequence generator *)

Module SequenceGeneratorFacts.
Import SequenceGenerator.

Local Open Scope nat_scope.

Lemma legs_snoc (seq : FlybySequence) (d next : nat) :
  seq <> [] -> legs (seq ++ [next]) = legs seq ++ [(last seq d, next)].
Proof.
  unfold legs. induction seq as [|a seq IH]; [congruence|]. intros _.
  destruct seq as [|b seq]; [reflexivity|].
  change (combine ((a :: b :: seq) ++ [next]) (tl ((a :: b :: seq) ++ [next])))
    with ((a, b) :: combine ((b :: seq) ++ [next]) (tl ((b :: seq) ++ [next]))).
  rewrite IH by congruence. reflexivity.
Qed.

Lemma legs_length (seq : FlybySequence) : List.length (legs seq) = List.length seq - 1.
Proof.
  unfold legs. rewrite length_combine.
  destruct seq as [|a seq]; [reflexivity|].
  cbn [tl List.length]. lia.
Qed.

Lemma positions_app {A} (f : A -> bool) (l1 l2 : list A) (i : nat) :
  positions f (l1 ++ l2) i = positions f l1 i ++ positions f l2 (i + List.length l1).
Proof.
  revert i. induction l1 as [|x l1 IH]; intros i; cbn.
  - now rewrite Nat.add_0_r.
  - rewrite IH, <- app_assoc. now replace (S i + List.length l1) with (i + S (List.length l1)) by lia.
Qed.

Lemma gaps_snoc (earlier : list nat) (i j : nat) :
  gaps ((earlier ++ [i]) ++ [j]) = gaps (earlier ++ [i]) ++ [j - i - 1].
Proof.
  induction earlier as [|a earlier IH]; [reflexivity|].
  destruct earlier as [|b earlier].
  - reflexivity.
  - change (gaps (((a :: b :: earlier) ++ [i]) ++ [j]))
      with ((b - a - 1) :: gaps (((b :: earlier) ++ [i]) ++ [j])).
    rewrite IH. reflexivity.
Qed.

Section Enumeration.
Variable sys : System.
Variable p : SearchParameters.

Lemma metadata_snoc (seq : FlybySequence) (next : nat) :
  seq <> [] ->
  let cur := last seq (departure p) in
  resonantCount (seq ++ [next])
  = resonantCount seq + (if isResonant cur next then 1 else 0)
  /\ backLegCount sys (seq ++ [next])
     = backLegCount sys seq + (if isBackLeg sys cur next then 1 else 0)
  /\ positions (fun l => isBackLeg sys (fst l) (snd l)) (legs (seq ++ [next])) 0
     = positions (fun l => isBackLeg sys (fst l) (snd l)) (legs seq) 0
       ++ (if isBackLeg sys cur next then [List.length (legs seq)] else [])
  /\ List.length (legs (seq ++ [next])) = S (List.length (legs seq)).
Proof.
  intros Hne cur. unfold resonantCount, backLegCount.
  rewrite (legs_snoc seq (departure p) next Hne). fold cur.
  rewrite !filter_app, !length_app, positions_app. cbn [filter positions fst snd].
  repeat split.
  - destruct (isResonant cur next); reflexivity.
  - destruct (isBackLeg sys cur next); reflexivity.
  - destruct (isBackLeg sys cur next); cbn; rewrite ?app_nil_r; reflexivity.
  - cbn. lia.
Qed.

(** A leg that [step] accepts keeps the record of the node in line with the
    metadata of the longer path, and within the bounds on legs. *)
Lemma step_tracks (n n' : Node) (next : nat) :
  tracks sys p n -> step sys p n next = Some n' ->
  tracks sys p n' /\ path n' = path n ++ [next].
Proof.
  intros (Hne & Hres & Hback & Hsince & Hrb & Hbb & Hsp) Hstep.
  destruct (metadata_snoc (path n) next Hne) as (Mres & Mback & Mpos & Mlen).
  fold (current p n) in Mres, Mback, Mpos.
  unfold step in Hstep.
  destruct (isBackLeg sys (current p n) next) eqn:Eback.
  - destruct ((if isResonant (current p n) next then S (resonant n) else resonant n)
              <=? maxResonant p) eqn:E1; [| discriminate].
    destruct (S (backLegs n) <=? maxBackLegs p) eqn:E2; [| discriminate].
    cbn [andb] in Hstep.
    apply Nat.leb_le in E1, E2.
    destruct (sinceBack n) as [d|] eqn:Esince.
    + destruct (d <=? maxBackSpacing p) eqn:E3; [| discriminate].
      apply Nat.leb_le in E3.
      injection Hstep as <-. cbn [path resonant backLegs sinceBack].
      split; [| reflexivity].
      destruct Hsince as (earlier & i & Hpos & Hi).
      unfold tracks, legsWithinBounds, backSpacings. cbn [path resonant backLegs sinceBack].
      rewrite Mres, Mback, Mpos, Mlen.
      repeat split.
      * intros H. apply app_eq_nil in H. destruct H; discriminate.
      * rewrite Hres. destruct (isResonant (current p n) next); lia.
      * lia.
      * exists (positions (fun l => isBackLeg sys (fst l) (snd l)) (legs (path n)) 0),
          (List.length (legs (path n))).
        split; [reflexivity | lia].
      * destruct (isResonant (current p n) next); lia.
      * lia.
      * rewrite Hpos, gaps_snoc. apply Forall_app. split.
        -- unfold backSpacings in Hsp. rewrite Hpos in Hsp. exact Hsp.
        -- constructor; [lia | constructor].
    + injection Hstep as <-. cbn [path resonant backLegs sinceBack].
      split; [| reflexivity].
      unfold tracks, legsWithinBounds, backSpacings. cbn [path resonant backLegs sinceBack].
      rewrite Mres, Mback, Mpos, Mlen.
      repeat split.
      * intros H. apply app_eq_nil in H. destruct H; discriminate.
      * rewrite Hres. destruct (isResonant (current p n) next); lia.
      * lia.
      * exists (positions (fun l => isBackLeg sys (fst l) (snd l)) (legs (path n)) 0),
          (List.length (legs (path n))).
        split; [reflexivity | lia].
      * destruct (isResonant (current p n) next); lia.
      * lia.
      * rewrite Hsince. constructor.
  - destruct ((if isResonant (current p n) next then S (resonant n) else resonant n)
              <=? maxResonant p) eqn:E1; [| discriminate].
    apply Nat.leb_le in E1.
    injection Hstep as <-. cbn [path resonant backLegs sinceBack].
    split; [| reflexivity].
    unfold tracks, legsWithinBounds, backSpacings. cbn [path resonant backLegs sinceBack].
    rewrite Mres, Mback, Mpos, Mlen, app_nil_r.
    repeat split.
    + intros H. apply app_eq_nil in H. destruct H; discriminate.
    + rewrite Hres. destruct (isResonant (current p n) next); lia.
    + lia.
    + destruct (sinceBack n) as [d|]; cbn [option_map].
      * destruct Hsince as (earlier & i & Hpos & Hi).
        exists earlier, i. split; [exact Hpos | lia].
      * exact Hsince.
    + destruct (isResonant (current p n) next); lia.
    + lia.
    + exact Hsp.
Qed.

(** A leg that [step] refuses would put the path beyond a bound. *)
Lemma step_refuses (n : Node) (next : nat) :
  tracks sys p n -> step sys p n next = None ->
  ~ legsWithinBounds sys p (path n ++ [next]).
Proof.
  intros (Hne & Hres & Hback & Hsince & _) Hstep (Brb & Bbb & Bsp).
  destruct (metadata_snoc (path n) next Hne) as (Mres & Mback & Mpos & Mlen).
  fold (current p n) in Mres, Mback, Mpos.
  unfold backSpacings in Bsp. rewrite Mres in Brb. rewrite Mback in Bbb.
  rewrite Mpos in Bsp.
  unfold step in Hstep.
  assert (Hr : ((if isResonant (current p n) next then S (resonant n) else resonant n)
                <=? maxResonant p) = true).
  { apply Nat.leb_le. rewrite Hres. destruct (isResonant (current p n) next); lia. }
  rewrite Hr in Hstep.
  destruct (isBackLeg sys (current p n) next); [| discriminate].
  assert (Hb : (S (backLegs n) <=? maxBackLegs p) = true) by (apply Nat.leb_le; lia).
  rewrite Hb in Hstep. cbn [andb] in Hstep.
  destruct (sinceBack n) as [d|]; [| discriminate].
  destruct (d <=? maxBackSpacing p) eqn:E3; [discriminate|].
  apply Nat.leb_gt in E3.
  destruct Hsince as (earlier & i & Hpos & Hi).
  rewrite Hpos, gaps_snoc in Bsp. apply Forall_app in Bsp. destruct Bsp as [_ Bsp].
  inversion Bsp; subst. lia.
Qed.

Lemma in_children (n c : Node) :
  In c (children sys p n) -> exists next, step sys p n next = Some c.
Proof.
  unfold children. rewrite in_flat_map. intros (next & _ & Hin).
  exists next. destruct (step sys p n next) as [n'|]; [| contradiction].
  destruct Hin as [->|[]]. reflexivity.
Qed.

Lemma arrivals_within_bounds (n : Node) (budget : nat) :
  tracks sys p n -> List.length (path n) + budget <= S (maxSwingBys p) ->
  Forall (withinBounds sys p) (arrivals sys p n).
Proof.
  intros Htr Hlen. unfold arrivals.
  destruct (sameAttractor sys (current p n) (destination p)); [| constructor].
  destruct (step sys p n (destination p)) as [n'|] eqn:Hstep; [| constructor].
  destruct (step_tracks n n' _ Htr Hstep) as [(_ & _ & _ & _ & Hlegs) Hpath].
  constructor; [| constructor]. split; [| exact Hlegs].
  unfold assistCount. rewrite Hpath, length_app. cbn. lia.
Qed.

(** The expansion only recurses on nodes within all the bounds, and only
    finds sequences within all the bounds. *)
Lemma explore_within_bounds (budget : nat) (n : Node) :
  tracks sys p n -> List.length (path n) + budget <= S (maxSwingBys p) ->
  Forall (fun m => tracks sys p m /\ List.length (path m) <= S (maxSwingBys p))
         (fst (explore sys p budget n))
  /\ Forall (withinBounds sys p) (snd (explore sys p budget n)).
Proof.
  revert n. induction budget as [|budget IH]; intros n Htr Hlen.
  - cbn [explore fst snd]. split.
    + constructor; [split; [exact Htr | lia] | constructor].
    + exact (arrivals_within_bounds n 0 Htr Hlen).
  - cbn [explore fst snd].
    assert (Hchild : forall c, In c (children sys p n) ->
                               tracks sys p c
                               /\ List.length (path c) + budget <= S (maxSwingBys p)).
    { intros c Hc. destruct (in_children n c Hc) as [next Hstep].
      destruct (step_tracks n c next Htr Hstep) as [Htc Hpath].
      split; [exact Htc|]. rewrite Hpath, length_app. cbn. lia. }
    split.
    + constructor; [split; [exact Htr | lia]|].
      apply Forall_forall. intros m Hm.
      apply in_flat_map in Hm. destruct Hm as (branch & Hbranch & Hm).
      apply in_map_iff in Hbranch. destruct Hbranch as (c & <- & Hc).
      destruct (Hchild c Hc) as [Htc Hlc].
      destruct (IH c Htc Hlc) as [Hnodes _].
      rewrite Forall_forall in Hnodes. exact (Hnodes m Hm).
    + apply Forall_app. split; [exact (arrivals_within_bounds n (S budget) Htr Hlen)|].
      apply Forall_forall. intros seq Hseq.
      apply in_flat_map in Hseq. destruct Hseq as (branch & Hbranch & Hseq).
      apply in_map_iff in Hbranch. destruct Hbranch as (c & <- & Hc).
      destruct (Hchild c Hc) as [Htc Hlc].
      destruct (IH c Htc Hlc) as [_ Hseqs].
      rewrite Forall_forall in Hseqs. exact (Hseqs seq Hseq).
Qed.

Lemma root_tracks : tracks sys p (root p).
Proof.
  unfold tracks, root, legsWithinBounds, resonantCount, backLegCount, backSpacings.
  cbn. repeat split; try lia; try congruence. constructor.
Qed.

(** C1. Every sequence that the generation returns has at most
    [maxSwingBys] gravity assists, at most [maxResonant] resonant assists, at
    most [maxBackLegs] back legs, and at most [maxBackSpacing] legs between
    any back leg and the next one.  The expansion recurses only on nodes
    whose path is within the same bounds, and the legs it refuses are legs
    that would put the path beyond a bound. *)
Theorem generated_sequences_within_bounds :
  Forall (withinBounds sys p) (generateFlybySequences sys p)
  /\ Forall (fun n => List.length (path n) - 1 <= maxSwingBys p
                      /\ legsWithinBounds sys p (path n))
            (expanded sys p)
  /\ (forall n next,
         In n (expanded sys p) -> step sys p n next = None ->
         ~ legsWithinBounds sys p (path n ++ [next])).
Proof.
  assert (Hlen : List.length (path (root p)) + maxSwingBys p <= S (maxSwingBys p))
    by (cbn; lia).
  destruct (explore_within_bounds (maxSwingBys p) (root p) root_tracks Hlen)
    as [Hnodes Hseqs].
  split; [exact Hseqs|]. split.
  - unfold expanded. eapply Forall_impl; [| exact Hnodes].
    intros n [(_ & _ & _ & _ & Hlegs) Hn]. split; [lia | exact Hlegs].
  - intros n next Hin Hstep. unfold expanded in Hin.
    rewrite Forall_forall in Hnodes. destruct (Hnodes n Hin) as [Htr _].
    exact (step_refuses n next Htr Hstep).
Qed.

End Enumeration.

(** The enumeration at work, from body 3 to body 6 of [stock]. *)
Example generate_direct_only :
  generateFlybySequences stock
    {| departure := 3; destination := 6; maxSwingBys := 0;
       maxResonant := 1; maxBackLegs := 1; maxBackSpacing := 0 |}
  = [[3; 6]].
Proof. vm_compute. reflexivity. Qed.

Example generate_one_flyby :
  generateFlybySequences stock
    {| departure := 3; destination := 6; maxSwingBys := 1;
       maxResonant := 0; maxBackLegs := 1; maxBackSpacing := 0 |}
  = [[3; 6]; [3; 2; 6]].
Proof. vm_compute. reflexivity. Qed.

Example generate_adjacent_back_legs :
  generateFlybySequences stock
    {| departure := 6; destination := 2; maxSwingBys := 1;
       maxResonant := 0; maxBackLegs := 2; maxBackSpacing := 0 |}
  = [[6; 2]; [6; 3; 2]]
  /\ backSpacings stock [6; 3; 2] = [0].
Proof. vm_compute. split; reflexivity. Qed.

End SequenceGeneratorFacts.

(** * Properties of the trajectory solver *)

Module TrajectorySolverFacts.
Import TrajectorySolver.

Local Open Scope nat_scope.

Lemma notAbove_refl (b : option Q) : notAbove b b.
Proof. destruct b; cbn; [apply Qle_refl | exact I]. Qed.

Lemma notAbove_trans (a b c : option Q) : notAbove a b -> notAbove b c -> notAbove a c.
Proof.
  destruct a, b, c; cbn; try tauto. intros H1 H2. exact (Qle_trans _ _ _ H1 H2).
Qed.

Section Solver.
Variable Candidate : Type.
Variable evaluate : Candidate -> option Q.
Variable nextGeneration : nat -> list Candidate -> list Candidate.
Variable iterationBudget : nat.
Variable threshold : Q.
Variable patience : nat.
Variable cancelRequested : nat -> bool.

Lemma consider_notAbove (b : option (Candidate * Q)) (c : Candidate) :
  notAbove (option_map snd (consider Candidate evaluate b c)) (option_map snd b).
Proof.
  unfold consider. destruct (evaluate c) as [v|]; [| apply notAbove_refl].
  destruct b as [[c0 b]|]; [| exact I].
  destruct (Qltb v b) eqn:E; cbn.
  - apply Qlt_le_weak. unfold Qltb in E. apply negb_true_iff in E.
    apply Qnot_le_lt. intros Hle. apply Qle_bool_iff in Hle. congruence.
  - apply Qle_refl.
Qed.

Lemma considerAll_notAbove (pop : list Candidate) (b : option (Candidate * Q)) :
  notAbove (option_map snd (considerAll Candidate evaluate b pop)) (option_map snd b).
Proof.
  revert b. unfold considerAll.
  induction pop as [|c pop IH]; intros b; [apply notAbove_refl|].
  cbn [fold_left]. eapply notAbove_trans; [apply IH | apply consider_notAbove].
Qed.

(** The snapshots of a run descend from the best value the run started
    with. *)
Lemma generations_descending (fuel i : nat) (st : SolverState Candidate) :
  descending (option_map snd (best Candidate st))
    (fst (generations Candidate evaluate nextGeneration iterationBudget threshold
            patience cancelRequested fuel i st)).
Proof.
  revert i st. induction fuel as [|fuel IH]; intros i st; [exact I|].
  cbn [generations].
  destruct (cancelRequested i); [exact I|].
  set (pop' := nextGeneration i (population Candidate st)).
  set (best' := considerAll Candidate evaluate (best Candidate st) pop').
  set (stalled' := if improved Candidate threshold (best Candidate st) best'
                   then 0 else S (stalled Candidate st)).
  pose proof (considerAll_notAbove pop' (best Candidate st)) as Hbest.
  fold best' in Hbest.
  destruct (patience <=? stalled').
  - cbn. split; [exact Hbest | exact I].
  - specialize (IH (S i) {| population := pop'; best := best'; stalled := stalled' |}).
    destruct (generations Candidate evaluate nextGeneration iterationBudget threshold
                patience cancelRequested fuel (S i)
                {| population := pop'; best := best'; stalled := stalled' |})
      as [snapshots out].
    cbn in *. split; [exact Hbest | exact IH].
Qed.

Lemma descending_consecutive (bound : option Q) (snapshots : list ProgressSnapshot)
      (i : nat) (a b : ProgressSnapshot) :
  descending bound snapshots ->
  nth_error snapshots i = Some a -> nth_error snapshots (S i) = Some b ->
  notAbove (bestDeltaV b) (bestDeltaV a).
Proof.
  revert bound i. induction snapshots as [|s rest IH]; intros bound i Hd Ha Hb.
  - destruct i; discriminate.
  - destruct Hd as [_ Hrest]. destruct i as [|i].
    + cbn in Ha. injection Ha as ->.
      destruct rest as [|s' rest']; [discriminate|].
      cbn in Hb. injection Hb as ->. exact (proj1 Hrest).
    + exact (IH _ i Hrest Ha Hb).
Qed.

(** C2. In a run of the trajectory solver, of any two snapshots emitted one
    after the other, the later one reports a best delta-v that is less than
    or equal to that of the earlier one. *)
Theorem best_delta_v_never_increases
        (initial : list Candidate) (i : nat) (earlier later : ProgressSnapshot) :
  nth_error (fst (searchOptimalTrajectory Candidate evaluate nextGeneration
                    iterationBudget threshold patience cancelRequested initial)) i
  = Some earlier ->
  nth_error (fst (searchOptimalTrajectory Candidate evaluate nextGeneration
                    iterationBudget threshold patience cancelRequested initial)) (S i)
  = Some later ->
  notAbove (bestDeltaV later) (bestDeltaV earlier).
Proof.
  unfold searchOptimalTrajectory. intros Ha Hb.
  eapply descending_consecutive; [apply generations_descending | exact Ha | exact Hb].
Qed.

End Solver.

Lemma best_delta_v_never_increases_witness :
  notAbove (Some (1004 # 1)) (Some (1016 # 1)).
Proof.
  apply (best_delta_v_never_increases Z squarePlus halving 5 (1 # 2) 3 (fun _ => false)
           [8; 12]%Z 0
           {| iteration := 1; budget := 5; bestDeltaV := Some (1016 # 1) |}
           {| iteration := 2; budget := 5; bestDeltaV := Some (1004 # 1) |}).
  - vm_compute. reflexivity.
  - vm_compute. reflexivity.
Defined.

End TrajectorySolverFacts.

(** * Properties of the text of a sequence *)

Module SequenceTextFacts.
Import SequenceGenerator SequenceText.

Local Open Scope nat_scope.

Lemma to_uint_nonnil (i : nat) : Nat.to_uint i <> Nil.
Proof.
  intros H. pose proof (DecimalNat.Unsigned.of_to i) as Hi.
  rewrite H in Hi. cbn in Hi. subst i. discriminate.
Qed.

(** An identity is read back from its digits. *)
Lemma idOfString_idToString (i : nat) : idOfString (idToString i) = Some i.
Proof.
  unfold idOfString, idToString.
  rewrite NilZero.usu by apply to_uint_nonnil.
  cbn. now rewrite DecimalNat.Unsigned.of_to.
Qed.

Lemma digits_no_dash (d : uint) : occurs "-" (NilEmpty.string_of_uint d) = false.
Proof. induction d; cbn; auto. Qed.

Lemma idToString_no_dash (i : nat) : occurs "-" (idToString i) = false.
Proof.
  unfold idToString, NilZero.string_of_uint.
  destruct (Nat.to_uint i); try apply digits_no_dash. reflexivity.
Qed.

Lemma splitOn_piece (sep : ascii) (s : string) :
  occurs sep s = false -> splitOn sep s = [s].
Proof.
  induction s as [|c s IH]; [reflexivity|]. cbn.
  intros H. apply orb_false_iff in H. destruct H as [Hc Hs].
  rewrite Hc, (IH Hs). reflexivity.
Qed.

Lemma splitOn_append (sep : ascii) (s rest : string) :
  occurs sep s = false ->
  splitOn sep (s ++ String sep rest) = s :: splitOn sep rest.
Proof.
  induction s as [|c s IH]; cbn.
  - intros _. now rewrite Ascii.eqb_refl.
  - intros H. apply orb_false_iff in H. destruct H as [Hc Hs].
    rewrite Hc, (IH Hs). reflexivity.
Qed.

(** Cutting the joined pieces gives the pieces back. *)
Lemma splitOn_concat (sep : ascii) (pieces : list string) :
  pieces <> [] -> Forall (fun s => occurs sep s = false) pieces ->
  splitOn sep (String.concat (String sep EmptyString) pieces) = pieces.
Proof.
  induction pieces as [|s pieces IH]; [congruence|]. intros _ Hall.
  inversion Hall as [|? ? Hs Hrest]; subst.
  destruct pieces as [|s' pieces].
  - cbn. now apply splitOn_piece.
  - change (String.concat (String sep EmptyString) (s :: s' :: pieces))
      with (s ++ String sep (String.concat (String sep EmptyString) (s' :: pieces)))%string.
    rewrite (splitOn_append sep s _ Hs), IH; [reflexivity | congruence | exact Hrest].
Qed.

Lemma traverse_map_section {A B} (f : A -> B) (g : B -> option A) (l : list A) :
  (forall x, g (f x) = Some x) -> traverse g (map f l) = Some l.
Proof.
  intros Hgf. induction l as [|x l IH]; [reflexivity|].
  cbn. now rewrite Hgf, IH.
Qed.

(** C7. The text of a valid sequence of a system, read back against the
    same system, gives the sequence itself: the same origin, the same
    destination and the same bodies in between, in the same order. *)
Theorem fromString_toString (sys : System) (seq : FlybySequence) :
  valid sys seq = true -> fromString sys (toString seq) = Some seq.
Proof.
  intros Hvalid. unfold fromString, toString.
  rewrite splitOn_concat.
  - rewrite (traverse_map_section idToString idOfString seq idOfString_idToString).
    now rewrite Hvalid.
  - destruct seq; [discriminate | cbn; congruence].
  - apply Forall_forall. intros s Hs. apply in_map_iff in Hs.
    destruct Hs as (i & <- & _). apply idToString_no_dash.
Qed.

Lemma fromString_toString_witness :
  fromString stock (toString [3; 2; 3; 6]) = Some [3; 2; 3; 6].
Proof.
  apply (fromString_toString stock [3; 2; 3; 6]). reflexivity.
Defined.

Example toString_sample : toString [3; 2; 3; 6] = "3-2-3-6"%string.
Proof. reflexivity. Qed.

Example fromString_rejects_moon :
  fromString stock "3-4-6" = None /\ fromString stock "3-x-6" = None.
Proof. split; reflexivity. Qed.

End SequenceTextFacts.

(** * Properties of the arithmetic on doubles

    Whole numbers below 2^53 are held exactly; their products and
    differences are exact as long as they stay below 2^53; and the quotient
    of two of them, although rounded, has the whole part of the exact
    quotient. *)

Module DoubleFacts.
Import Double.

Local Open Scope Z_scope.


Lemma digits2_pos_log2 (p : positive) : Zpos (digits2_pos p) = Z.log2 (Zpos p) + 1.
Proof.
  induction p as [p IH|p IH|]; cbn [digits2_pos]; [| |reflexivity];
    rewrite Pos2Z.inj_succ, IH.
  - change (Zpos p~1) with (2 * Zpos p + 1). rewrite Z.log2_succ_double by lia. lia.
  - change (Zpos p~0) with (2 * Zpos p). rewrite Z.log2_double by lia. lia.
Qed.

Lemma Zdigits2_log2 (m : Z) : 0 < m -> Zdigits2 m = Z.log2 m + 1.
Proof. destruct m; try lia. intros _. apply digits2_pos_log2. Qed.

Lemma fexp_double (e : Z) : fexp prec emax e = Z.max (e - 53) (-1074).
Proof. reflexivity. Qed.

Lemma iter_pos_nat {A} (f : A -> A) (p : positive) (x : A) :
  iter_pos f p x = Nat.iter (Pos.to_nat p) f x.
Proof.
  revert x. induction p as [p IH|p IH|]; intros x; cbn [iter_pos]; [| |reflexivity].
  - rewrite !IH, Pos2Nat.inj_xI.
    replace (S (2 * Pos.to_nat p)) with (Pos.to_nat p + (Pos.to_nat p + 1))%nat by lia.
    rewrite !Nat.iter_add. reflexivity.
  - rewrite !IH, Pos2Nat.inj_xO.
    replace (2 * Pos.to_nat p)%nat with (Pos.to_nat p + Pos.to_nat p)%nat by lia.
    rewrite Nat.iter_add. reflexivity.
Qed.

Lemma shr_1_even (c : Z) :
  0 <= c ->
  shr_1 {| shr_m := 2 * c; shr_r := false; shr_s := false |}
  = {| shr_m := c; shr_r := false; shr_s := false |}.
Proof. destruct c; try lia; reflexivity. Qed.

Lemma iter_shr_exact (k : nat) (c : Z) :
  0 <= c ->
  Nat.iter k shr_1 {| shr_m := c * 2 ^ Z.of_nat k; shr_r := false; shr_s := false |}
  = {| shr_m := c; shr_r := false; shr_s := false |}.
Proof.
  intros Hc. revert c Hc. induction k as [|k IH]; intros c Hc.
  - cbn. now rewrite Z.mul_1_r.
  - rewrite Nat2Z.inj_succ, Z.pow_succ_r by lia.
    replace (c * (2 * 2 ^ Z.of_nat k)) with ((2 * c) * 2 ^ Z.of_nat k) by ring.
    rewrite Nat.iter_succ, IH by lia. now apply shr_1_even.
Qed.

Lemma shr_exact (c e j : Z) :
  0 <= c -> 0 <= j ->
  shr {| shr_m := c * 2 ^ j; shr_r := false; shr_s := false |} e j
  = ({| shr_m := c; shr_r := false; shr_s := false |}, e + j).
Proof.
  intros Hc Hj. destruct j as [|p|p]; try lia.
  - cbn. now rewrite Z.mul_1_r, Z.add_0_r.
  - cbn [shr]. rewrite iter_pos_nat.
    rewrite <- (positive_nat_Z p) at 1. now rewrite iter_shr_exact.
Qed.

Lemma log2_canonical (c j : Z) :
  2 ^ 52 <= c < 2 ^ 53 -> 0 <= j -> Z.log2 (c * 2 ^ j) = 52 + j.
Proof.
  intros Hc Hj. rewrite Z.log2_mul_pow2 by lia.
  rewrite (Z.log2_unique c 52); lia.
Qed.

(** Rounding a number that needs no rounding. *)
Lemma binary_round_aux_exact (c e j m : Z) :
  2 ^ 52 <= c < 2 ^ 53 -> 0 <= j -> -1074 <= e <= 971 ->
  m = c * 2 ^ j ->
  binary_round_aux prec emax false m (e - j) loc_Exact
  = S754_finite false (Z.to_pos c) e.
Proof.
  intros Hc Hj He ->.
  assert (Hpos : 0 < c * 2 ^ j) by (apply Z.mul_pos_pos; lia).
  unfold binary_round_aux, shr_fexp.
  rewrite Zdigits2_log2 by assumption.
  rewrite log2_canonical, fexp_double by assumption.
  replace (Z.max (52 + j + 1 + (e - j) - 53) (-1074) - (e - j)) with j by lia.
  cbn [shr_record_of_loc]. rewrite shr_exact by lia.
  cbn [shr_m loc_of_shr_record round_nearest_even].
  rewrite Zdigits2_log2 by lia.
  replace (e - j + j) with e by lia.
  rewrite (Z.log2_unique c 52) by lia. rewrite fexp_double.
  replace (Z.max (52 + 1 + e - 53) (-1074) - e) with 0 by lia.
  cbn [shr shr_m].
  destruct c as [|c|c]; try lia.
  replace (e <=? emax - prec) with true by (symmetry; apply Z.leb_le; unfold emax, prec; lia).
  reflexivity.
Qed.

Lemma log2_below_53 (n : Z) : 0 < n < 2 ^ 53 -> 0 <= Z.log2 n <= 52.
Proof.
  intros Hn. split; [apply Z.log2_nonneg|].
  assert (Z.log2 n < 53); [| lia]. apply Z.log2_lt_pow2; lia.
Qed.

Lemma canon_mantissa (n : Z) :
  0 < n < 2 ^ 53 -> 2 ^ 52 <= n * 2 ^ (52 - Z.log2 n) < 2 ^ 53.
Proof.
  intros Hn. pose proof (log2_below_53 n Hn) as HL.
  destruct (Z.log2_spec n) as [Hlow Hhigh]; [lia|].
  assert (Hp : 0 < 2 ^ (52 - Z.log2 n)) by (apply Z.pow_pos_nonneg; lia).
  replace (2 ^ 52) with (2 ^ Z.log2 n * 2 ^ (52 - Z.log2 n))
    by (rewrite <- Z.pow_add_r by lia; f_equal; lia).
  replace (2 ^ 53) with (2 ^ Z.succ (Z.log2 n) * 2 ^ (52 - Z.log2 n))
    by (rewrite <- Z.pow_add_r by lia; f_equal; lia).
  split.
  - apply Z.mul_le_mono_nonneg_r; lia.
  - apply Z.mul_lt_mono_pos_r; lia.
Qed.

Lemma iter_xO (m d : positive) : Zpos (Pos.iter xO m d) = Zpos m * 2 ^ Zpos d.
Proof.
  rewrite (Pos.iter_swap_gen _ _ Zpos xO (Z.mul 2)) by reflexivity.
  change (Pos.iter (Z.mul 2) (Zpos m) d) with (Z.shiftl (Zpos m) (Zpos d)).
  apply Z.shiftl_mul_pow2. lia.
Qed.

(** Normalising a whole number below 2^53, held with [t] more binary
    places than it needs. *)
Lemma binary_round_exact (n t : Z) (m : positive) :
  0 < n < 2 ^ 53 -> 0 <= t -> Zpos m = n * 2 ^ t ->
  binary_round prec emax false m (- t) = canon n.
Proof.
  intros Hn Ht Hm. pose proof (log2_below_53 n Hn) as HL.
  pose proof (canon_mantissa n Hn) as Hc.
  unfold binary_round. rewrite digits2_pos_log2, Hm, Z.log2_mul_pow2, fexp_double by lia.
  match goal with
  | |- context [Z.max ?a ?b] => replace (Z.max a b) with (Z.log2 n - 52) by lia
  end.
  unfold shl_align.
  destruct (Z.log2 n - 52 - - t) as [|d|d] eqn:Hd.
  - replace (- t) with (Z.log2 n - 52 - 0) by lia.
    apply binary_round_aux_exact; try lia.
    rewrite Hm. replace t with (52 - Z.log2 n) by lia. ring.
  - replace (- t) with (Z.log2 n - 52 - Zpos d) by lia.
    apply binary_round_aux_exact; try lia.
    rewrite Hm, <- Z.mul_assoc, <- Z.pow_add_r by lia. do 2 f_equal. lia.
  - replace (Z.log2 n - 52) with (Z.log2 n - 52 - 0) at 1 by lia.
    apply binary_round_aux_exact; try lia.
    rewrite iter_xO, Hm, <- Z.mul_assoc, <- Z.pow_add_r by lia.
    rewrite Z.pow_0_r, Z.mul_1_r. do 2 f_equal. lia.
Qed.

Lemma ofZ_0 : ofZ 0 = S754_zero false.
Proof. reflexivity. Qed.

Lemma ofZ_canon (n : Z) : 0 < n < 2 ^ 53 -> ofZ n = canon n.
Proof.
  intros Hn. destruct n as [|p|p]; try lia.
  unfold ofZ, binary_normalize. change 0 with (- 0).
  apply binary_round_exact; lia.
Qed.

(** The product of two whole numbers is exact when it is below 2^53. *)
Lemma mul_exact (a b : Z) :
  0 < a -> 0 < b -> a * b < 2 ^ 53 -> mul (canon a) (canon b) = canon (a * b).
Proof.
  intros Ha Hb Hab.
  assert (Ha' : 0 < a < 2 ^ 53) by nia.
  assert (Hb' : 0 < b < 2 ^ 53) by nia.
  assert (Hn : 0 < a * b < 2 ^ 53) by nia.
  pose proof (log2_below_53 _ Ha') as HLa. pose proof (log2_below_53 _ Hb') as HLb.
  pose proof (log2_below_53 _ Hn) as HLn.
  pose proof (canon_mantissa _ Ha') as Hca. pose proof (canon_mantissa _ Hb') as Hcb.
  pose proof (canon_mantissa _ Hn) as Hcn.
  pose proof (Z.log2_mul_below a b Ha Hb) as Hbelow.
  unfold mul, canon, SFmul. cbn [xorb].
  replace (Z.log2 a - 52 + (Z.log2 b - 52))
    with (Z.log2 (a * b) - 52 - (52 + Z.log2 (a * b) - Z.log2 a - Z.log2 b)) by lia.
  apply binary_round_aux_exact; try lia.
  rewrite Pos2Z.inj_mul, !Z2Pos.id by lia.
  replace (a * b * 2 ^ (52 - Z.log2 (a * b)) * 2 ^ (52 + Z.log2 (a * b) - Z.log2 a - Z.log2 b))
    with (a * b * (2 ^ (52 - Z.log2 (a * b)) * 2 ^ (52 + Z.log2 (a * b) - Z.log2 a - Z.log2 b)))
    by ring.
  rewrite <- Z.pow_add_r by lia.
  replace (52 - Z.log2 (a * b) + (52 + Z.log2 (a * b) - Z.log2 a - Z.log2 b))
    with ((52 - Z.log2 a) + (52 - Z.log2 b)) by lia.
  rewrite Z.pow_add_r by lia. ring.
Qed.

Lemma shl_align_same (m : positive) (e : Z) : shl_align m e e = (m, e).
Proof. unfold shl_align. now rewrite Z.sub_diag. Qed.

Lemma shl_align_down (m : positive) (e e' : Z) :
  e' <= e -> Zpos (fst (shl_align m e e')) = Zpos m * 2 ^ (e - e').
Proof.
  intros He. unfold shl_align. destruct (e' - e) as [|d|d] eqn:Hd; try lia; cbn [fst].
  - replace (e - e') with 0 by lia. now rewrite Z.mul_1_r.
  - rewrite iter_xO. do 2 f_equal. lia.
Qed.

(** The difference of two whole numbers below 2^53 is exact. *)
Lemma sub_exact (a b : Z) :
  0 <= b <= a -> a < 2 ^ 53 -> sub (ofZ a) (ofZ b) = ofZ (a - b).
Proof.
  intros Hba Ha.
  destruct (Z.eq_dec b 0) as [->|Hb].
  { rewrite Z.sub_0_r, ofZ_0.
    destruct (Z.eq_dec a 0) as [->|Ha0]; [reflexivity|].
    rewrite ofZ_canon by lia. reflexivity. }
  assert (Ha' : 0 < a < 2 ^ 53) by lia.
  assert (Hb' : 0 < b < 2 ^ 53) by lia.
  pose proof (log2_below_53 _ Ha') as HLa. pose proof (log2_below_53 _ Hb') as HLb.
  pose proof (canon_mantissa _ Ha') as Hca. pose proof (canon_mantissa _ Hb') as Hcb.
  assert (HL : Z.log2 b <= Z.log2 a) by (apply Z.log2_le_mono; lia).
  rewrite (ofZ_canon a), (ofZ_canon b) by lia.
  unfold sub, canon, SFsub. cbn [cond_Zopp].
  rewrite Z.min_r by lia.
  rewrite shl_align_same. cbn [fst].
  rewrite shl_align_down by lia. rewrite !Z2Pos.id by lia.
  replace (a * 2 ^ (52 - Z.log2 a) * 2 ^ (Z.log2 a - 52 - (Z.log2 b - 52))
           - b * 2 ^ (52 - Z.log2 b))
    with ((a - b) * 2 ^ (52 - Z.log2 b)).
  2:{ rewrite <- Z.mul_assoc, <- Z.pow_add_r by lia.
      replace (52 - Z.log2 a + (Z.log2 a - 52 - (Z.log2 b - 52))) with (52 - Z.log2 b) by lia.
      ring. }
  destruct (Z.eq_dec a b) as [->|Hab].
  { now rewrite Z.sub_diag. }
  assert (Hpos : 0 < (a - b) * 2 ^ (52 - Z.log2 b)).
  { apply Z.mul_pos_pos; [lia|]. apply Z.pow_pos_nonneg; lia. }
  rewrite (ofZ_canon (a - b)) by lia.
  destruct ((a - b) * 2 ^ (52 - Z.log2 b)) as [|p|p] eqn:Hp; try lia.
  unfold binary_normalize.
  replace (Z.log2 b - 52) with (- (52 - Z.log2 b)) by lia.
  apply binary_round_exact; lia.
Qed.

Lemma div_eucl_pair (a b : Z) : Z.div_eucl a b = (a / b, a mod b).
Proof. unfold Z.div, Z.modulo. now destruct (Z.div_eucl a b). Qed.

(** The double of a number literal that is a whole number below 2^53. *)
Lemma ofQ_whole (n : Z) : 0 <= n < 2 ^ 53 -> ofQ (inject_Z n) = ofZ n.
Proof.
  intros Hn. destruct n as [|p|p]; try lia; [reflexivity|].
  assert (Hp : 0 < Zpos p < 2 ^ 53) by lia.
  pose proof (log2_below_53 _ Hp) as HL. pose proof (canon_mantissa _ Hp) as Hc.
  rewrite ofZ_canon by lia.
  unfold ofQ, inject_Z, Qnum, Qden, SFdiv, SFdiv_core_binary. cbn [xorb].
  rewrite Zdigits2_log2, fexp_double by lia.
  change (Zdigits2 1) with 1.
  match goal with
  | |- context [Z.min ?a ?b] => replace (Z.min a b) with (Z.log2 (Zpos p) - 53) by lia
  end.
  replace (0 - 0 - (Z.log2 (Zpos p) - 53)) with (53 - Z.log2 (Zpos p)) by lia.
  destruct (53 - Z.log2 (Zpos p)) as [|s|s] eqn:Hs; try lia.
  rewrite Z.shiftl_mul_pow2, div_eucl_pair, Z.div_1_r, Z.mod_1_r by lia.
  change (new_location 1 0) with loc_Exact.
  replace (Z.log2 (Zpos p) - 53) with (Z.log2 (Zpos p) - 52 - 1) by lia.
  apply binary_round_aux_exact; try lia.
  rewrite <- Z.mul_assoc, <- Z.pow_add_r by lia. do 2 f_equal. lia.
Qed.

(** ** Division *)

Lemma new_location_up (m r : Z) :
  new_location m r = loc_Inexact Eq \/ new_location m r = loc_Inexact Gt -> m <= 2 * r.
Proof.
  unfold new_location, new_location_even, new_location_odd.
  destruct (Z.even m); destruct (Z.eqb_spec r 0) as [->|_];
    try (intros [Hup|Hup]; discriminate).
  - destruct (Z.compare_spec (2 * r) m); intros [Hup|Hup]; try discriminate; lia.
  - destruct (Z.compare_spec (2 * r + 1) m); intros [Hup|Hup]; try discriminate; lia.
Qed.

Lemma round_nearest_even_cases (m : Z) (l : location) :
  round_nearest_even m l = m
  \/ (round_nearest_even m l = m + 1 /\ (l = loc_Inexact Eq \/ l = loc_Inexact Gt)).
Proof.
  destruct l as [|[| |]]; cbn; auto.
  destruct (Z.even m); auto.
Qed.

Lemma shr_record_of_loc_m (m : Z) (l : location) : shr_m (shr_record_of_loc m l) = m.
Proof. destruct l as [|[| |]]; reflexivity. Qed.

Lemma loc_of_shr_record_of_loc (m : Z) (l : location) :
  loc_of_shr_record (shr_record_of_loc m l) = l.
Proof. destruct l as [|[| |]]; reflexivity. Qed.

Lemma shr_1_m (mrs : shr_record) :
  0 <= shr_m mrs -> shr_m (shr_1 mrs) = shr_m mrs / 2.
Proof.
  destruct mrs as [m r s]. cbn [shr_m]. intros Hm.
  rewrite <- Z.div2_div. destruct m as [|[p|p|]|]; try lia; reflexivity.
Qed.

Lemma shr_1_up (mrs : shr_record) :
  0 <= shr_m mrs ->
  loc_of_shr_record (shr_1 mrs) = loc_Inexact Eq
  \/ loc_of_shr_record (shr_1 mrs) = loc_Inexact Gt ->
  Z.odd (shr_m mrs) = true.
Proof.
  destruct mrs as [m r s]. cbn [shr_m]. intros Hm.
  destruct m as [|[p|p|]|]; try lia; cbn; destruct (r || s);
    intros [H|H]; try discriminate; reflexivity.
Qed.

Lemma floor_finite (m e : Z) :
  0 < m -> e <= 971 ->
  floor match m with
        | Z0 => S754_zero false
        | Zpos p => if e <=? emax - prec then S754_finite false p e
                    else S754_infinity false
        | Zneg _ => S754_nan
        end
  = Some (Z.shiftl m e).
Proof.
  intros Hm He. destruct m as [|p|p]; try lia.
  replace (e <=? emax - prec) with true
    by (symmetry; apply Z.leb_le; unfold emax, prec; lia).
  reflexivity.
Qed.

(** The end of a rounding: the mantissa is brought back to 53 digits when
    rounding up has reached 2^53. *)
Lemma finish_round (T E : Z) :
  2 ^ 52 <= T <= 2 ^ 53 -> -1074 <= E <= 970 ->
  floor (let '(mrs, e) := shr_fexp prec emax T E loc_Exact in
         match shr_m mrs with
         | Z0 => S754_zero false
         | Zpos m => if e <=? emax - prec then S754_finite false m e
                     else S754_infinity false
         | Zneg _ => S754_nan
         end)
  = Some (Z.shiftl T E).
Proof.
  intros HT HE. unfold shr_fexp. rewrite Zdigits2_log2, fexp_double by lia.
  destruct (Z.eq_dec T (2 ^ 53)) as [->|Hne].
  - change (Z.log2 (2 ^ 53)) with 53.
    replace (Z.max (53 + 1 + E - 53) (-1074) - E) with 1 by lia.
    cbn [shr iter_pos].
    replace (shr_1 (shr_record_of_loc (2 ^ 53) loc_Exact))
      with {| shr_m := 2 ^ 52; shr_r := false; shr_s := false |} by reflexivity.
    cbn [shr_m]. rewrite floor_finite by lia. f_equal.
    change (2 ^ 53) with (Z.shiftl (2 ^ 52) 1).
    rewrite Z.shiftl_shiftl by lia. f_equal. lia.
  - rewrite (Z.log2_unique T 52) by lia.
    replace (Z.max (52 + 1 + E - 53) (-1074) - E) with 0 by lia.
    cbn [shr_record_of_loc shr shr_m].
    apply floor_finite; lia.
Qed.

(** Rounding a quotient of 53 or 54 digits. *)
Lemma round_quotient (q e : Z) (l : location) :
  2 ^ 52 <= q < 2 ^ 54 -> -1074 <= e <= 969 ->
  exists T E,
    floor (binary_round_aux prec emax false q e l) = Some (Z.shiftl T E)
    /\ ((q < 2 ^ 53 /\ E = e
         /\ (T = q \/ (T = q + 1 /\ (l = loc_Inexact Eq \/ l = loc_Inexact Gt))))
        \/ (2 ^ 53 <= q /\ E = e + 1
            /\ (T = q / 2 \/ (T = q / 2 + 1 /\ Z.odd q = true)))).
Proof.
  intros Hq He. unfold binary_round_aux.
  unfold shr_fexp at 1. rewrite Zdigits2_log2, fexp_double by lia.
  destruct (Z_lt_le_dec q (2 ^ 53)) as [Hlt|Hge].
  - rewrite (Z.log2_unique q 52) by lia.
    replace (Z.max (52 + 1 + e - 53) (-1074) - e) with 0 by lia.
    cbn [shr]. rewrite shr_record_of_loc_m, loc_of_shr_record_of_loc.
    exists (round_nearest_even q l), e. split.
    + apply finish_round; [| lia].
      destruct (round_nearest_even_cases q l) as [->|[-> _]]; lia.
    + left. repeat split; try assumption.
      destruct (round_nearest_even_cases q l) as [->|[-> H]]; auto.
  - rewrite (Z.log2_unique q 53) by lia.
    replace (Z.max (53 + 1 + e - 53) (-1074) - e) with 1 by lia.
    cbn [shr iter_pos].
    set (mrs := shr_record_of_loc q l).
    assert (Hm : shr_m mrs = q) by apply shr_record_of_loc_m.
    assert (Hhalf : shr_m (shr_1 mrs) = q / 2) by (rewrite shr_1_m, Hm; lia).
    assert (Hrange : 2 ^ 52 <= q / 2 < 2 ^ 53).
    { split; [apply Z.div_le_lower_bound | apply Z.div_lt_upper_bound]; lia. }
    rewrite Hhalf.
    exists (round_nearest_even (q / 2) (loc_of_shr_record (shr_1 mrs))), (e + 1). split.
    + apply finish_round; [| lia].
      destruct (round_nearest_even_cases (q / 2) (loc_of_shr_record (shr_1 mrs)))
        as [->|[-> _]]; lia.
    + right. repeat split; try assumption.
      destruct (round_nearest_even_cases (q / 2) (loc_of_shr_record (shr_1 mrs)))
        as [->|[-> H]]; [now left|]. right. split; [reflexivity|].
      rewrite <- Hm. apply shr_1_up; [lia | assumption].
Qed.

(** The arithmetic of the rounding: rounding [x * g / y] to the nearest
    whole number does not reach the next multiple of [g]. *)
Lemma round_floor (x y g A B T : Z) :
  0 < y -> 0 <= x < 2 ^ 53 -> 0 < g ->
  x * g = A * y + B -> 0 <= B < y -> 2 ^ 52 <= A ->
  T = A \/ (T = A + 1 /\ y <= 2 * B) ->
  T / g = x / y.
Proof.
  intros Hy Hx Hg Heq HB HA HT.
  pose proof (Z.div_mod x y ltac:(lia)) as Hdiv.
  pose proof (Z.mod_pos_bound x y Hy) as Hmod.
  set (Qt := x / y) in *. set (R := x mod y) in *.
  assert (Hlow : Qt * g <= A).
  { assert (H : (Qt * g - 1) * y < A * y) by nia.
    apply Z.mul_lt_mono_pos_r in H; lia. }
  assert (Hhigh : A < (Qt + 1) * g).
  { assert (H : A * y < (Qt + 1) * g * y) by nia.
    apply Z.mul_lt_mono_pos_r in H; lia. }
  assert (Hbounds : Qt * g <= T < (Qt + 1) * g).
  { destruct HT as [->|[-> Hup]]; [lia|]. split; [lia|].
    destruct (Z_lt_le_dec (A + 1) ((Qt + 1) * g)) as [|Hfull]; [assumption|].
    exfalso.
    assert (Hedge : A + 1 = (Qt + 1) * g) by lia.
    assert (HBg : B <= y - g) by nia.
    assert (Hsmall : y < 2 * g) by nia.
    lia. }
  symmetry. apply (Z.div_unique T g Qt (T - Qt * g)); [lia | ring].
Qed.

Lemma div_core_canonical (mx my ex ey : Z) :
  2 ^ 52 <= mx < 2 ^ 53 -> 2 ^ 52 <= my < 2 ^ 53 -> -1000 <= ex - ey <= 1000 ->
  SFdiv_core_binary prec emax mx ex my ey
  = ((mx * 2 ^ 53) / my, ex - ey - 53, new_location my ((mx * 2 ^ 53) mod my)).
Proof.
  intros Hx Hy He. unfold SFdiv_core_binary.
  rewrite !Zdigits2_log2, fexp_double by lia.
  rewrite (Z.log2_unique mx 52), (Z.log2_unique my 52) by lia.
  match goal with
  | |- context [Z.min ?a ?b] => replace (Z.min a b) with (ex - ey - 53) by lia
  end.
  replace (ex - ey - (ex - ey - 53)) with 53 by lia.
  cbv beta iota zeta.
  rewrite Z.shiftl_mul_pow2, div_eucl_pair by lia. reflexivity.
Qed.

(** The quotient of two whole numbers below 2^53, rounded to the nearest
    double, has the whole part of the exact quotient. *)
Lemma div_floor (x y : Z) :
  0 < x < 2 ^ 53 -> 0 < y < 2 ^ 53 -> floor (div (canon x) (canon y)) = Some (x / y).
Proof.
  intros Hx Hy.
  pose proof (log2_below_53 _ Hx) as HLx. pose proof (log2_below_53 _ Hy) as HLy.
  pose proof (canon_mantissa _ Hx) as Hcx. pose proof (canon_mantissa _ Hy) as Hcy.
  unfold div, canon, SFdiv. cbn [xorb].
  rewrite div_core_canonical by (rewrite ?Z2Pos.id by lia; lia).
  rewrite !Z2Pos.id by lia.
  set (z := 2 ^ (52 - Z.log2 y)) in *.
  set (g0 := 2 ^ (53 - Z.log2 x + Z.log2 y)).
  assert (Hz : 0 < z) by (apply Z.pow_pos_nonneg; lia).
  assert (Hg0 : 0 < g0) by (apply Z.pow_pos_nonneg; lia).
  assert (HN : x * 2 ^ (52 - Z.log2 x) * 2 ^ 53 = x * g0 * z).
  { unfold g0, z. rewrite <- !Z.mul_assoc, <- !Z.pow_add_r by lia. do 2 f_equal. lia. }
  rewrite HN in *.
  rewrite Z.div_mul_cancel_r, Z.mul_mod_distr_r by lia.
  set (q := x * g0 / y). set (B0 := (x * g0) mod y).
  pose proof (Z.div_mod (x * g0) y ltac:(lia)) as Hdiv. fold q B0 in Hdiv.
  pose proof (Z.mod_pos_bound (x * g0) y ltac:(lia)) as Hmod. fold B0 in Hmod.
  assert (Hq : 2 ^ 52 <= q < 2 ^ 54).
  { unfold q. rewrite <- (Z.div_mul_cancel_r (x * g0) y z) by lia. rewrite <- HN.
    split; [apply Z.div_le_lower_bound | apply Z.div_lt_upper_bound]; nia. }
  destruct (round_quotient q (Z.log2 x - 52 - (Z.log2 y - 52) - 53)
              (new_location (y * z) (B0 * z)) Hq ltac:(lia))
    as (T & E & -> & [(Hlt & -> & HT)|(Hge & -> & HT)]); f_equal.
  - rewrite Z.shiftl_div_pow2 by lia.
    replace (- (Z.log2 x - 52 - (Z.log2 y - 52) - 53)) with (53 - Z.log2 x + Z.log2 y) by lia.
    fold g0. apply (round_floor x y g0 q B0); try lia.
    destruct HT as [->|[-> Hup]]; [now left|]. right. split; [reflexivity|].
    apply new_location_up in Hup. nia.
  - rewrite Z.shiftl_div_pow2 by lia.
    replace (- (Z.log2 x - 52 - (Z.log2 y - 52) - 53 + 1)) with (52 - Z.log2 x + Z.log2 y) by lia.
    set (g := 2 ^ (52 - Z.log2 x + Z.log2 y)).
    assert (Hg : 0 < g) by (apply Z.pow_pos_nonneg; lia).
    assert (Hg2 : g0 = 2 * g).
    { unfold g0, g. rewrite <- Z.pow_succ_r by lia. f_equal. lia. }
    pose proof (Z.div_mod q 2 ltac:(lia)) as Hhalf.
    pose proof (Z.mod_pos_bound q 2 ltac:(lia)) as Hbit.
    assert (HB : 0 <= x * g - q / 2 * y < y) by nia.
    assert (HA : 2 ^ 52 <= q / 2) by (apply Z.div_le_lower_bound; lia).
    assert (Hup : T = q / 2 \/ (T = q / 2 + 1 /\ y <= 2 * (x * g - q / 2 * y))).
    { destruct HT as [->|[-> Hodd]]; [now left|]. right. split; [reflexivity|].
      apply Z.odd_spec in Hodd. destruct Hodd as [h Hodd].
      assert (Hone : q mod 2 = 1) by lia. nia. }
    apply (round_floor x y g (q / 2) (x * g - q / 2 * y)); solve [assumption | lia].
Qed.

(** ** The two computations of the editor *)

Lemma percent_exact (p t : Z) :
  0 <= p -> 0 < t -> 100 * p < 2 ^ 53 -> t < 2 ^ 53 ->
  floor (div (mul (ofZ 100) (ofZ p)) (ofZ t)) = Some (100 * p / t).
Proof.
  intros Hp Ht Hbound Ht'.
  rewrite (ofZ_canon t) by lia.
  destruct (Z.eq_dec p 0) as [->|Hp0]; [reflexivity|].
  rewrite (ofZ_canon 100), (ofZ_canon p), mul_exact by lia.
  apply div_floor; lia.
Qed.

Lemma kilometres_exact (a b : Z) :
  0 <= b <= a -> a < 2 ^ 53 ->
  floor (div (sub (ofQ (inject_Z a)) (ofQ (inject_Z b))) (ofZ 1000)) = Some ((a - b) / 1000).
Proof.
  intros Hba Ha.
  rewrite !ofQ_whole, sub_exact by lia.
  rewrite (ofZ_canon 1000) by lia.
  destruct (Z.eq_dec a b) as [->|Hab]; [now rewrite Z.sub_diag|].
  rewrite ofZ_canon by lia. apply div_floor; lia.
Qed.

End DoubleFacts.

(** * More properties of the editor's handlers *)

Module EditorMoreFacts.
Import Editor TraceView TraceKinds EditorFacts.

Local Open Scope js_scope.

(** Case analysis on whatever the run branches on next. *)
Ltac js_case :=
  match goal with
  | |- context [match ?x with _ => _ end] =>
      lazymatch x with
      | context [match _ with _ => _ end] => fail
      | _ => destruct x eqn:?
      end
  end.

Ltac js_unfold :=
  unfold calls, outcome, final, findTrajectory_try, chosenSequence, dereference,
    bodyBefore, updateAltitudeRange, input_setMinMax, input_value, rangeOf,
    validateTime, validateInput, resetFoundTrajectory,
    displayFoundTrajectory, when, bind, call, settle, throw, ret, get, put.


(** ** The progress message *)

(** X1. While the generator has something to count, its progression is
    between 0 and the total, and 100 times the total is below 2^53, so that
    the product is exact on doubles: the percentage written in the progress
    message is the whole part of the exact quotient; it is between 0 and
    100, it is 100 exactly when the progression has reached the total, and
    it does not decrease when the progression grows. *)
Theorem percentOf_between_0_and_100 (progression later total : Z) :
  (0 <= progression <= later)%Z -> (later <= total)%Z -> (0 < total)%Z ->
  (100 * total < 2 ^ 53)%Z ->
  exists percent percent',
    percentOf (progression, total) = Some percent
    /\ percentOf (later, total) = Some percent'
    /\ percent = (100 * progression / total)%Z
    /\ (0 <= percent <= percent')%Z /\ (percent' <= 100)%Z
    /\ (percent = 100 <-> progression = total)%Z.
Proof.
  intros Hp Hl Ht Hbound. unfold percentOf.
  exists (100 * progression / total)%Z, (100 * later / total)%Z.
  rewrite !DoubleFacts.percent_exact by lia.
  split; [reflexivity|]. split; [reflexivity|]. split; [reflexivity|].
  assert (H100 : forall x, (0 <= x <= total -> 100 * x / total <= 100)%Z).
  { intros x Hx. apply Z.div_le_upper_bound; lia. }
  repeat split.
  - apply Z.div_pos; lia.
  - apply Z.div_le_mono; lia.
  - apply H100. lia.
  - intros Hfull.
    destruct (Z.eq_dec progression total) as [|Hne]; [assumption|].
    assert (100 * progression / total < 100)%Z; [| lia].
    apply Z.div_lt_upper_bound; nia.
  - intros ->. apply Z.div_mul. lia.
Qed.

Lemma percentOf_between_0_and_100_witness :
  exists percent percent',
    percentOf (1, 3)%Z = Some percent
    /\ percentOf (2, 3)%Z = Some percent'
    /\ percent = (100 * 1 / 3)%Z
    /\ (0 <= percent <= percent')%Z /\ (percent' <= 100)%Z
    /\ (percent = 100 <-> 1 = 3)%Z.
Proof.
  apply (percentOf_between_0_and_100 1 2 3); lia.
Defined.

(** Past that bound the product is rounded, and the message of a
    generation that has reached its total can read 99. *)
Example percentOf_rounded_product :
  percentOf (360288473277629, 360288473277629)%Z = Some 99%Z.
Proof. vm_compute. reflexivity. Qed.

(** Without anything to count the quotient is not a finite number. *)
Example percentOf_of_nothing :
  percentOf (0, 0)%Z = None /\ percentOf (1, 0)%Z = None.
Proof. split; reflexivity. Qed.

(** ** The range of an altitude input *)

(** X2. For a body whose radius and sphere of influence are whole numbers
    of metres, the radius within the sphere and both below 2^53, so that
    their difference is exact on doubles: the upper end that
    [updateAltitudeRange] gives to an altitude input is the whole part of
    the distance in kilometres from the surface to the edge of the sphere,
    that is the largest whole number of kilometres that, in metres, does
    not exceed that distance. *)
Theorem altitudeMax_largest_kilometre_within_soi
        (body : OrbitingBody) (edge surface km : Z) :
  soi body = inject_Z edge -> radius body = inject_Z surface ->
  (0 <= surface <= edge)%Z -> (edge < 2 ^ 53)%Z ->
  altitudeMax body = ((edge - surface) / 1000)%Z
  /\ ((km <= altitudeMax body)%Z
      <-> (inject_Z (km * 1000) <= soi body - radius body)%Q).
Proof.
  intros Hsoi Hradius Horder Hbound.
  assert (Hmax : altitudeMax body = ((edge - surface) / 1000)%Z).
  { unfold altitudeMax. rewrite Hsoi, Hradius.
    now rewrite DoubleFacts.kilometres_exact by lia. }
  split; [assumption|]. rewrite Hmax, Hsoi, Hradius.
  unfold Qminus. rewrite <- inject_Z_opp, <- inject_Z_plus, <- Zle_Qle.
  split; intros H.
  - pose proof (Z.mul_div_le (edge - surface) 1000 ltac:(lia)). lia.
  - apply Z.div_le_lower_bound; lia.
Qed.

(** A radius of 600000.3 and a sphere of 84160000.3 metres are no whole
    numbers: the difference of the two doubles, which is below 83560000, is
    rounded up to it, and the upper end is one more than the kilometres
    that fit. *)
Example altitudeMax_rounded_difference :
  Double.ofQ (841600003 # 10) = Double.ofQ (5647882014372659 # 67108864)
  /\ Double.ofQ (6000003 # 10) = Double.ofQ (5153963332180378 # 8589934592)
  /\ altitudeMax {| body_id := 3; attractor_id := 0;
                    radius := 6000003 # 10; soi := 841600003 # 10 |} = 83560%Z
  /\ Qfloor (((5647882014372659 # 67108864) - (5153963332180378 # 8589934592))
             / inject_Z 1000) = 83559%Z.
Proof. repeat split; vm_compute; reflexivity. Qed.

(** ** What a click reports, fills and switches *)

Section Clicks.
Variable dom : Dom.
Variable generator : SequenceParameters -> GeneratorRun.
Variable FlybySequence_fromString : string -> Outcome FlybySequence.
Variable solver : FlybySequence -> TrajectoryUserSettings -> Outcome unit.

Lemma filter_firstn_none {A} (f : A -> bool) (l : list A) (n : nat) :
  filter f l = [] -> filter f (firstn n l) = [].
Proof.
  revert n. induction l as [|x l IH]; intros n H; destruct n; try reflexivity.
  cbn in *. destruct (f x); [discriminate|]. now apply IH.
Qed.

Lemma enabledAfter_untouched (w : Widget) (known : option bool) (tr : Trace) :
  filter (switches w) tr = [] -> enabledAfter w known tr = known.
Proof.
  revert known. induction tr as [|c tr IH]; intros known H; [reflexivity|].
  cbn in H. destruct (switches w c) eqn:E; [discriminate|].
  destruct c; cbn in *; try (now apply IH); rewrite E; now apply IH.
Qed.

Lemma findTrajectory_try_filters (s : Closure) :
  filter isReport (calls (findTrajectory_try dom FlybySequence_fromString solver) s) = []
  /\ filter (switches systemSelector)
       (calls (findTrajectory_try dom FlybySequence_fromString solver) s) = []
  /\ filter (switches searchStartBtn)
       (calls (findTrajectory_try dom FlybySequence_fromString solver) s) = [].
Proof.
  js_unfold. repeat (js_case; cbn); repeat split; reflexivity.
Qed.

Lemma generateSequences_try_filters (s : Closure) :
  filter isReport (calls (generateSequences_try dom generator) s) = []
  /\ filter (switches systemSelector) (calls (generateSequences_try dom generator) s) = []
  /\ filter (switches seqGenBtn) (calls (generateSequences_try dom generator) s) = [].
Proof.
  repeat split; apply filter_none; intros c Hc;
    apply in_generateSequences_try in Hc;
    destruct Hc as [->|[->|[->|[[i ->]|[_ [->|[[r ->]|(sq & _ & [->| ->])]]]]]]];
    reflexivity.
Qed.

Lemma tryBlock_filters (k : Search) (s : Closure) :
  filter isReport (calls (tryBlock dom generator FlybySequence_fromString solver k) s) = []
  /\ filter (switches systemSelector)
       (calls (tryBlock dom generator FlybySequence_fromString solver k) s) = []
  /\ filter (switches (button k))
       (calls (tryBlock dom generator FlybySequence_fromString solver k) s) = [].
Proof.
  destruct k; [apply generateSequences_try_filters | apply findTrajectory_try_filters].
Qed.

Lemma catchCalls_filters (e : ErrorMessage) (m : string) (o : Outcome unit) (w : Widget) :
  filter isReport (catchCalls e m o) = catchCalls e m o
  /\ filter (switches w) (catchCalls e m o) = [].
Proof.
  destruct o as [[]|err]; cbn; [split; reflexivity|].
  destruct (instanceofError err && negb (messageIs err m)); split; reflexivity.
Qed.

Lemma click_reports (k : Search) (s : Closure) :
  filter isReport (calls (onclick dom generator FlybySequence_fromString solver k) s)
  = catchCalls (errorMessageOf k) (cancelMessage k)
      (outcome (tryBlock dom generator FlybySequence_fromString solver k) s).
Proof.
  unfold calls at 1. rewrite onclick_run. cbn [fst].
  unfold calls at 1. rewrite handler_run. cbn [fst].
  rewrite !filter_app.
  destruct (tryBlock_filters k s) as (-> & _ & _).
  destruct (catchCalls_filters (errorMessageOf k) (cancelMessage k)
              (outcome (tryBlock dom generator FlybySequence_fromString solver k) s)
              systemSelector) as [-> _].
  replace (filter isReport (finallyCalls k)) with (@nil Call) by (destruct k; reflexivity).
  cbn. now rewrite !app_nil_r.
Qed.

(** X3. All that a click reports is what its [catch] block reports:
    nothing when the [try] block returns; the error shown to the user and
    then passed to [console.error] when the block throws an [Error] other
    than the cancellation; [console.error] alone for the cancellation and
    for a thrown value that is not an [Error], which the user never sees. *)
Theorem reports_of_a_click (k : Search) (s : Closure) :
  filter isReport (calls (onclick dom generator FlybySequence_fromString solver k) s)
  = match outcome (tryBlock dom generator FlybySequence_fromString solver k) s with
    | Returned _ => []
    | Thrown (JsError m) =>
        if String.eqb m (cancelMessage k)
        then [console_error (JsError m)]
        else [show (errorMessageOf k) (JsError m); console_error (JsError m)]
    | Thrown (JsOther r) => [console_error (JsOther r)]
    end.
Proof.
  rewrite click_reports.
  destruct (outcome (tryBlock dom generator FlybySequence_fromString solver k) s)
    as [[]|[m|r]]; cbn; [reflexivity| |reflexivity].
  destruct (String.eqb m (cancelMessage k)); reflexivity.
Qed.

Lemma onclick_shape (k : Search) (s : Closure) :
  exists middle,
    calls (onclick dom generator FlybySequence_fromString solver k) s
    = [disable (button k); hide (errorMessageOf k); disable systemSelector]
        ++ middle ++ [enable systemSelector; enable (button k)]
    /\ filter (switches systemSelector) middle = []
    /\ filter (switches (button k)) middle = [].
Proof.
  unfold calls at 1. rewrite onclick_run. cbn [fst].
  unfold calls at 1. rewrite handler_run. cbn [fst].
  destruct (tryBlock_filters k s) as (_ & Hsys & Hbtn).
  set (body := calls (tryBlock dom generator FlybySequence_fromString solver k) s) in *.
  set (caught := catchCalls _ _ _).
  exists (body ++ caught ++ removelast (finallyCalls k)).
  split; [| split].
  - destruct k; cbn; rewrite <- !app_assoc; reflexivity.
  - subst caught. rewrite !filter_app, Hsys.
    rewrite (proj2 (catchCalls_filters _ _ _ systemSelector)).
    destruct k; reflexivity.
  - subst caught. rewrite !filter_app, Hbtn.
    rewrite (proj2 (catchCalls_filters _ _ _ (button k))).
    destruct k; reflexivity.
Qed.

(** X4. From its first call to its last, a click keeps its button
    disabled, and from its third call to the last but one it keeps the
    system selector disabled: whatever the run does in between, neither is
    enabled before the end. *)
Theorem controls_disabled_during_a_click (k : Search) (s : Closure) (n : nat) :
  (1 <= n)%nat ->
  (S n <= List.length (calls (onclick dom generator FlybySequence_fromString solver k) s))%nat ->
  enabledAfter (button k) None
    (firstn n (calls (onclick dom generator FlybySequence_fromString solver k) s))
  = Some false
  /\ ((3 <= n)%nat ->
      (S (S n) <= List.length
                    (calls (onclick dom generator FlybySequence_fromString solver k) s))%nat ->
      enabledAfter systemSelector None
        (firstn n (calls (onclick dom generator FlybySequence_fromString solver k) s))
      = Some false).
Proof.
  destruct (onclick_shape k s) as (middle & -> & Hsys & Hbtn).
  rewrite !length_app. cbn [List.length]. intros H1 Hn.
  assert (Hself : Widget_eqb (button k) (button k) = true) by (destruct k; reflexivity).
  assert (Hother : Widget_eqb (button k) systemSelector = false
                   /\ Widget_eqb systemSelector (button k) = false)
    by (destruct k; split; reflexivity).
  destruct Hother as [Hbs Hsb].
  split.
  - destruct n as [|n]; [lia|].
    change ([disable (button k); hide (errorMessageOf k); disable systemSelector]
              ++ middle ++ [enable systemSelector; enable (button k)])
      with (disable (button k)
              :: ([hide (errorMessageOf k); disable systemSelector]
                    ++ middle ++ [enable systemSelector; enable (button k)])).
    replace ([hide (errorMessageOf k); disable systemSelector]
               ++ middle ++ [enable systemSelector; enable (button k)])
      with (([hide (errorMessageOf k); disable systemSelector]
               ++ middle ++ [enable systemSelector]) ++ [enable (button k)])
      by (cbn; rewrite <- app_assoc; reflexivity).
    cbn [firstn enabledAfter]. rewrite Hself.
    apply enabledAfter_untouched.
    rewrite firstn_app, !length_app. cbn [List.length].
    replace (n - (2 + (List.length middle + 1)))%nat with 0%nat by lia.
    cbn [firstn]. rewrite app_nil_r.
    apply filter_firstn_none.
    rewrite !filter_app, Hbtn. cbn. rewrite Hbs. reflexivity.
  - intros H3 Hn2.
    do 3 (destruct n as [|n]; [lia|]).
    change ([disable (button k); hide (errorMessageOf k); disable systemSelector]
              ++ middle ++ [enable systemSelector; enable (button k)])
      with (disable (button k) :: hide (errorMessageOf k) :: disable systemSelector
              :: (middle ++ [enable systemSelector; enable (button k)])).
    cbn [firstn enabledAfter]. rewrite Hsb. cbn [Widget_eqb].
    apply enabledAfter_untouched.
    rewrite firstn_app, filter_app, (filter_firstn_none _ _ _ Hsys).
    replace (n - List.length middle)%nat with 0%nat by lia. reflexivity.
Qed.

End Clicks.

(** ** The sequence generation panel *)

Section Generation.
Variable dom : Dom.
Variable generator : SequenceParameters -> GeneratorRun.
Variable FlybySequence_fromString : string -> Outcome FlybySequence.
Variable solver : FlybySequence -> TrajectoryUserSettings -> Outcome unit.

Lemma seqGenBtn_calls (s : Closure) :
  calls (seqGenBtn_onclick dom generator) s
  = [disable seqGenBtn; hide sequenceParamsErr; disable systemSelector]
      ++ calls (generateSequences_try dom generator) s
      ++ catchCalls sequenceParamsErr "WORKER CANCELLED"
           (outcome (generateSequences_try dom generator) s)
      ++ [progressMsg_hide; enable systemSelector; enable seqGenBtn].
Proof.
  change (seqGenBtn_onclick dom generator)
    with (onclick dom generator FlybySequence_fromString solver SequenceGeneration).
  unfold calls at 1. rewrite onclick_run. cbn [fst button].
  unfold calls at 1. rewrite handler_run.
  cbn [fst tryBlock errorMessageOf cancelMessage finallyCalls].
  cbn. rewrite <- !app_assoc. reflexivity.
Qed.

Lemma assert_calls_filters (s : Closure) (f : Call -> bool) :
  (forall i, f (assertValidity i) = false) ->
  filter f (calls (assertSequenceInputs dom) s) = [].
Proof.
  intros Hf. apply filter_none. intros c Hc.
  destruct (proj2 (assertSequenceInputs_frame dom s) c Hc) as [i ->]. apply Hf.
Qed.

Lemma progress_calls_filters (f : Call -> bool) (l : list (Z * Z)) :
  (forall r, f (progressMsg_setMessage r) = false) ->
  filter f (map (fun r => progressMsg_setMessage (percentOf r)) l) = [].
Proof.
  intros Hf. apply filter_none. intros c Hc.
  apply in_map_iff in Hc. destruct Hc as (r & <- & _). apply Hf.
Qed.

(** X5. When the four inputs and the two bodies pass the checks and the
    generator delivers its sequences, the click starts the generator once,
    with the identities of the two bodies and the values of the four inputs,
    fills the sequence selector with exactly the sequences delivered, enables
    it, and reports nothing. *)
Theorem successful_generation_fills_selector
        (s : Closure) (sequences : list FlybySequence) :
  outcome (assertSequenceInputs dom) s = Returned tt ->
  settled (generator (sequenceParams dom)) = Returned sequences ->
  filter onSequenceSelector (calls (seqGenBtn_onclick dom generator) s)
  = [disable sequenceSelector; clear sequenceSelector;
     fillFrom sequences; enable sequenceSelector]
  /\ filter isSearchCall (calls (seqGenBtn_onclick dom generator) s)
     = [generateFlybySequences (sequenceParams dom)]
  /\ filter isReport (calls (seqGenBtn_onclick dom generator) s) = [].
Proof.
  intros Hassert Hsettled.
  assert (Htry : generateSequences_try dom generator s
                 = ([disable sequenceSelector; clear sequenceSelector;
                     progressMsg_enable 1000]
                      ++ calls (assertSequenceInputs dom) s
                      ++ ([generateFlybySequences (sequenceParams dom)]
                            ++ map (fun r => progressMsg_setMessage (percentOf r))
                                 (progress (generator (sequenceParams dom)))
                            ++ [fillFrom sequences])
                      ++ [enable sequenceSelector],
                    Returned tt, s)).
  { rewrite generateSequences_try_run, Hassert.
    unfold calls at 2, outcome. rewrite runSequenceGeneration_run, Hsettled.
    reflexivity. }
  rewrite seqGenBtn_calls. unfold calls at 1 2 3, outcome. rewrite Htry.
  cbn [fst snd catchCalls].
  rewrite !filter_app.
  rewrite !(assert_calls_filters s) by reflexivity.
  rewrite !progress_calls_filters by reflexivity.
  repeat split; reflexivity.
Qed.

(** X6. When the [try] block of [generateSequences] throws, whether a check
    failed or the generator did, whatever the error, the sequence selector
    is left as the block first made it: disabled and cleared, never filled
    nor enabled. *)
Theorem failed_generation_leaves_selector_cleared (s : Closure) (err : JsThrown) :
  outcome (generateSequences_try dom generator) s = Thrown err ->
  filter onSequenceSelector (calls (seqGenBtn_onclick dom generator) s)
  = [disable sequenceSelector; clear sequenceSelector].
Proof.
  intros Hthrown.
  rewrite seqGenBtn_calls, !filter_app.
  assert (Hcaught : forall o, filter onSequenceSelector
                                (catchCalls sequenceParamsErr "WORKER CANCELLED" o) = []).
  { intros [[]|e]; cbn; [reflexivity|].
    destruct (instanceofError e && negb (messageIs e "WORKER CANCELLED")); reflexivity. }
  rewrite Hcaught. cbn [filter onSequenceSelector Widget_eqb app].
  rewrite app_nil_r.
  unfold outcome in Hthrown. unfold calls.
  rewrite generateSequences_try_run in *.
  destruct (outcome (assertSequenceInputs dom) s) as [[]|e] eqn:Hassert; cbn [fst snd] in *.
  - unfold outcome in Hthrown. unfold calls.
    rewrite runSequenceGeneration_run in *. cbn [fst snd] in *.
    destruct (settled (generator (sequenceParams dom))) as [sequences|e];
      [discriminate|].
    rewrite !filter_app. unfold calls.
    rewrite (assert_calls_filters s) by reflexivity.
    change (generateFlybySequences (sequenceParams dom)
              :: map (fun r => progressMsg_setMessage (percentOf r))
                   (progress (generator (sequenceParams dom))) ++ [])
      with ([generateFlybySequences (sequenceParams dom)]
              ++ map (fun r => progressMsg_setMessage (percentOf r))
                   (progress (generator (sequenceParams dom))) ++ []).
    rewrite !filter_app, progress_calls_filters by reflexivity. reflexivity.
  - rewrite !filter_app. unfold calls.
    rewrite (assert_calls_filters s) by reflexivity. reflexivity.
Qed.

(** X7. [assertSequenceInputs] asserts the four inputs in the order back
    spacing, swing-bys, resonant, back legs, and stops at the first that is
    invalid, whose error it throws without asserting the inputs after it.
    Only when the four are valid does it compare the bodies, the attractors
    before the identities. *)
Theorem assertSequenceInputs_first_invalid (s : Closure) :
  calls (assertSequenceInputs dom) s
  = map assertValidity (fst (firstInvalid (assertValidity_of dom) assertOrder))
  /\ outcome (assertSequenceInputs dom) s
     = match snd (firstInvalid (assertValidity_of dom) assertOrder) with
       | Some err => Thrown err
       | None =>
           if negb (attractor_id (originBody dom) =? attractor_id (destBody dom))%Z
           then Thrown (JsError "Origin and destination bodies must orbit the same body.")
           else if (body_id (originBody dom) =? body_id (destBody dom))%Z
                then Thrown (JsError "Same origin and destination bodies.")
                else Returned tt
       end.
Proof.
  unfold calls, outcome, assertSequenceInputs, assertValidityOf,
    bind, call, settle, throw, ret. cbn [assertOrder firstInvalid].
  destruct (assertValidity_of dom maxBackSpacingInput) as [[]|?],
    (assertValidity_of dom maxSwingBysInput) as [[]|?],
    (assertValidity_of dom maxResonantInput) as [[]|?],
    (assertValidity_of dom maxBackLegsInput) as [[]|?],
    (negb (attractor_id (originBody dom) =? attractor_id (destBody dom))%Z),
    (body_id (originBody dom) =? body_id (destBody dom))%Z;
    split; reflexivity.
Qed.

(** X8. With four valid inputs, a click on bodies that do not orbit the same
    body, or that are one body, shows the user the message of the check that
    failed and passes it to [console.error]; nothing else is reported. *)
Theorem precondition_message_is_shown (s : Closure) :
  (forall i, assertValidity_of dom i = Returned tt) ->
  attractor_id (originBody dom) <> attractor_id (destBody dom)
  \/ body_id (originBody dom) = body_id (destBody dom) ->
  filter isReport (calls (seqGenBtn_onclick dom generator) s)
  = (let message :=
       if negb (attractor_id (originBody dom) =? attractor_id (destBody dom))%Z
       then "Origin and destination bodies must orbit the same body."
       else "Same origin and destination bodies." in
     [show sequenceParamsErr (JsError message); console_error (JsError message)]).
Proof.
  intros Hvalid Hpre.
  change (seqGenBtn_onclick dom generator)
    with (onclick dom generator FlybySequence_fromString solver SequenceGeneration).
  rewrite (click_reports dom generator FlybySequence_fromString solver).
  cbn [tryBlock cancelMessage errorMessageOf].
  unfold outcome. rewrite generateSequences_try_run.
  rewrite (assertSequenceInputs_valid dom s Hvalid).
  destruct (Z.eqb_spec (attractor_id (originBody dom)) (attractor_id (destBody dom)));
    cbn; [| reflexivity].
  destruct (Z.eqb_spec (body_id (originBody dom)) (body_id (destBody dom)));
    cbn; [reflexivity | tauto].
Qed.

End Generation.

(** ** The trajectory search panel *)

Section Trajectory.
Variable dom : Dom.
Variable generator : SequenceParameters -> GeneratorRun.
Variable FlybySequence_fromString : string -> Outcome FlybySequence.
Variable solver : FlybySequence -> TrajectoryUserSettings -> Outcome unit.

Ltac in_list := cbn; repeat (first [left; reflexivity | right]).

Lemma searchStartBtn_run (s : Closure) :
  calls (searchStartBtn_onclick dom FlybySequence_fromString solver) s
  = [disable searchStartBtn; hide searchParamsErr; disable systemSelector]
      ++ calls (findTrajectory_try dom FlybySequence_fromString solver) s
      ++ catchCalls searchParamsErr "TRAJECTORY FINDER CANCELLED"
           (outcome (findTrajectory_try dom FlybySequence_fromString solver) s)
      ++ [enable systemSelector; enable searchStartBtn]
  /\ final (searchStartBtn_onclick dom FlybySequence_fromString solver) s
     = final (findTrajectory_try dom FlybySequence_fromString solver) s.
Proof.
  change (searchStartBtn_onclick dom FlybySequence_fromString solver)
    with (onclick dom generator FlybySequence_fromString solver TrajectorySearch).
  unfold calls at 1, final at 1. rewrite onclick_run. cbn [fst snd button].
  unfold calls at 1, final at 1. rewrite handler_run.
  cbn [fst snd tryBlock errorMessageOf cancelMessage finallyCalls].
  split; [cbn; rewrite <- !app_assoc|]; reflexivity.
Qed.

(** A call that is neither a report nor one of the five calls around the
    [try] block is made by the click only inside the [try] block. *)
Lemma in_click_in_try (s : Closure) (c : Call) :
  isReport c = false -> switches systemSelector c = false ->
  switches searchStartBtn c = false -> c <> hide searchParamsErr ->
  (In c (calls (searchStartBtn_onclick dom FlybySequence_fromString solver) s)
   <-> In c (calls (findTrajectory_try dom FlybySequence_fromString solver) s)).
Proof.
  intros Hreport Hsys Hbtn Hhide.
  rewrite (proj1 (searchStartBtn_run s)), !in_app_iff. cbn [In].
  split; [| tauto].
  intros [[H|[H|[H|[]]]]|[H|[H|[H|[H|[]]]]]]; subst; cbn in *;
    try discriminate; try congruence; try tauto.
  apply (in_catchCalls FlybySequence_fromString) in H.
  destruct H as (e & _ & [->|[-> _]]); discriminate.
Qed.

(** X9. With no custom sequence and no sequence in the selector, or one
    without bodies, the search fails on the first thing it reads, before
    any input is touched: the click shows and logs the type error and calls
    nothing else but the switches around the run. *)
Theorem search_without_sequence (s : Closure) :
  customSequence_value dom = "" ->
  sequenceSelector_sequence dom = None
  \/ (exists sq, sequenceSelector_sequence dom = Some sq /\ bodies sq = []) ->
  findTrajectory_try dom FlybySequence_fromString solver s = ([], Thrown typeError, s)
  /\ calls (searchStartBtn_onclick dom FlybySequence_fromString solver) s
     = [disable searchStartBtn; hide searchParamsErr; disable systemSelector;
        show searchParamsErr typeError; console_error typeError;
        enable systemSelector; enable searchStartBtn].
Proof.
  intros Hcustom Hnone.
  assert (Htry : findTrajectory_try dom FlybySequence_fromString solver s
                 = ([], Thrown typeError, s)).
  { unfold findTrajectory_try, chosenSequence, dereference, updateAltitudeRange,
      bind, throw, ret.
    rewrite Hcustom. cbn.
    destruct Hnone as [->|(sq & -> & Hbodies)]; [reflexivity|].
    rewrite Hbodies. reflexivity. }
  split; [exact Htry|].
  rewrite (proj1 (searchStartBtn_run s)). unfold calls, outcome. rewrite Htry. reflexivity.
Qed.

(** X10. A custom sequence, when there is one, is the sequence of the
    search: if [FlybySequence.fromString] rejects the text the search stops
    there with its error, and if the solver is called it is on the sequence
    read from the text, whatever the selector holds. *)
Theorem custom_sequence_comes_first (s : Closure) :
  customSequence_value dom <> "" ->
  (forall err,
      FlybySequence_fromString (customSequence_value dom) = Thrown err ->
      findTrajectory_try dom FlybySequence_fromString solver s
      = ([fromString (customSequence_value dom)], Thrown err, s))
  /\ (forall sq st,
         In (searchOptimalTrajectory sq st)
            (calls (searchStartBtn_onclick dom FlybySequence_fromString solver) s) ->
         FlybySequence_fromString (customSequence_value dom) = Returned sq).
Proof.
  intros Hcustom. apply String.eqb_neq in Hcustom. split.
  - intros err Herr.
    unfold findTrajectory_try, chosenSequence, bind, call, settle.
    rewrite Hcustom, Herr. reflexivity.
  - intros sq st Hin.
    apply in_click_in_try in Hin; try reflexivity; try discriminate.
    revert Hin. js_unfold. rewrite Hcustom. cbn.
    repeat (js_case; cbn); intros Hin;
      repeat (destruct Hin as [Hin|Hin]; try discriminate);
      try contradiction; congruence.
Qed.


Lemma click_filter (s : Closure) (f : Call -> bool) :
  f (disable searchStartBtn) = false -> f (hide searchParamsErr) = false ->
  f (disable systemSelector) = false -> f (enable systemSelector) = false ->
  f (enable searchStartBtn) = false ->
  (forall e err, f (show e err) = false) -> (forall err, f (console_error err) = false) ->
  filter f (calls (searchStartBtn_onclick dom FlybySequence_fromString solver) s)
  = filter f (calls (findTrajectory_try dom FlybySequence_fromString solver) s).
Proof.
  intros H1 H2 H3 H4 H5 Hshow Hlog.
  rewrite (proj1 (searchStartBtn_run s)), !filter_app.
  cbn [filter]. rewrite H1, H2, H3, H4, H5.
  rewrite (filter_none f (catchCalls _ _ _)).
  - cbn. now rewrite app_nil_r.
  - intros c Hc. apply (in_catchCalls FlybySequence_fromString) in Hc.
    destruct Hc as (e & _ & [->|[-> _]]); auto.
Qed.

Lemma click_enabledAfter (s : Closure) (w : Widget) :
  Widget_eqb w systemSelector = false -> Widget_eqb w searchStartBtn = false ->
  enabledAfter w None (calls (searchStartBtn_onclick dom FlybySequence_fromString solver) s)
  = enabledAfter w None (calls (findTrajectory_try dom FlybySequence_fromString solver) s).
Proof.
  intros Hsys Hbtn.
  rewrite (proj1 (searchStartBtn_run s)), !enabledAfter_app.
  cbn [enabledAfter]. rewrite Hsys, Hbtn.
  rewrite (enabledAfter_untouched w _ (catchCalls _ _ _)); [reflexivity|].
  apply catchCalls_filters.
Qed.

(** X12. A request that does not reach the solver leaves the results of the
    previous search as they are: the click calls nothing on the result
    panel, the plot or the trajectory, and the variables [trajectory] and
    [trajectoryCounter] keep their values. *)
Theorem rejected_request_keeps_results (s : Closure) :
  (forall sq st,
      ~ In (searchOptimalTrajectory sq st)
           (calls (findTrajectory_try dom FlybySequence_fromString solver) s)) ->
  filter onResultPanel
    (calls (searchStartBtn_onclick dom FlybySequence_fromString solver) s) = []
  /\ trajectory (final (searchStartBtn_onclick dom FlybySequence_fromString solver) s)
     = trajectory s
  /\ trajectoryCounter
       (final (searchStartBtn_onclick dom FlybySequence_fromString solver) s)
     = trajectoryCounter s.
Proof.
  rewrite click_filter by reflexivity.
  rewrite (proj2 (searchStartBtn_run s)).
  js_unfold.
  repeat (js_case; cbn); intros Hnever;
    first [ solve [repeat split; reflexivity]
          | exfalso; eapply Hnever; in_list ].
Qed.

Lemma results_follow_the_solver_try
      (s : Closure) (sq : FlybySequence) (st : TrajectoryUserSettings) :
  In (searchOptimalTrajectory sq st)
     (calls (findTrajectory_try dom FlybySequence_fromString solver) s) ->
  let tr := calls (findTrajectory_try dom FlybySequence_fromString solver) s in
  let after := final (findTrajectory_try dom FlybySequence_fromString solver) s in
  match solver sq st with
  | Returned _ =>
      enabledAfter detailsSelector None tr = Some true
      /\ enabledAfter stepSlider None tr = Some true
      /\ enabledAfter showTrajDetailsBtn None tr = Some true
      /\ enabledAfter downloadTrajDataBtn None tr = Some true
      /\ trajectory after = true
      /\ trajectoryCounter after = S (trajectoryCounter s)
  | Thrown _ =>
      enabledAfter detailsSelector None tr = Some false
      /\ enabledAfter stepSlider None tr = Some false
      /\ enabledAfter showTrajDetailsBtn None tr = Some false
      /\ enabledAfter downloadTrajDataBtn None tr = Some false
      /\ trajectory after = trajectory s
      /\ trajectoryCounter after = trajectoryCounter s
  end.
Proof.
  js_unfold.
  repeat (js_case; cbn); intros Hin;
    repeat (destruct Hin as [Hin|Hin]; try discriminate); try contradiction;
    injection Hin as <- <-;
    try congruence; cbn; repeat split; reflexivity.
Qed.

(** X13. After a click that reached the solver, the result panel follows
    the solver.  If the search succeeded, the details selector, the step
    slider and the two export buttons end enabled, [trajectory] is defined
    and [trajectoryCounter] is one more.  If it failed or was cancelled,
    the four controls end disabled, as [resetFoundTrajectory] left them, and
    the two variables keep their values. *)
Theorem results_follow_the_solver
        (s : Closure) (sq : FlybySequence) (st : TrajectoryUserSettings) :
  In (searchOptimalTrajectory sq st)
     (calls (searchStartBtn_onclick dom FlybySequence_fromString solver) s) ->
  let tr := calls (searchStartBtn_onclick dom FlybySequence_fromString solver) s in
  let after := final (searchStartBtn_onclick dom FlybySequence_fromString solver) s in
  match solver sq st with
  | Returned _ =>
      enabledAfter detailsSelector None tr = Some true
      /\ enabledAfter stepSlider None tr = Some true
      /\ enabledAfter showTrajDetailsBtn None tr = Some true
      /\ enabledAfter downloadTrajDataBtn None tr = Some true
      /\ trajectory after = true
      /\ trajectoryCounter after = S (trajectoryCounter s)
  | Thrown _ =>
      enabledAfter detailsSelector None tr = Some false
      /\ enabledAfter stepSlider None tr = Some false
      /\ enabledAfter showTrajDetailsBtn None tr = Some false
      /\ enabledAfter downloadTrajDataBtn None tr = Some false
      /\ trajectory after = trajectory s
      /\ trajectoryCounter after = trajectoryCounter s
  end.
Proof.
  intros Hin tr after. subst tr after.
  apply in_click_in_try in Hin; try reflexivity; try discriminate.
  rewrite !click_enabledAfter by reflexivity.
  rewrite (proj2 (searchStartBtn_run s)).
  exact (results_follow_the_solver_try s sq st Hin).
Qed.

(** X14. [trajectory.remove()] is called by a click exactly when a
    trajectory had been found before and the request reaches the solver.
    The variable is never made undefined again: once a trajectory has been
    found it stays defined after every later click, whether that search
    succeeds or not. *)
Theorem trajectory_removed_but_kept (s : Closure) :
  (In trajectory_remove
      (calls (searchStartBtn_onclick dom FlybySequence_fromString solver) s)
   <-> trajectory s = true
       /\ exists sq st,
           In (searchOptimalTrajectory sq st)
              (calls (searchStartBtn_onclick dom FlybySequence_fromString solver) s))
  /\ (trajectory s = true ->
      trajectory (final (searchStartBtn_onclick dom FlybySequence_fromString solver) s)
      = true).
Proof.
  assert (Hsolver : forall sq st,
             In (searchOptimalTrajectory sq st)
                (calls (searchStartBtn_onclick dom FlybySequence_fromString solver) s)
             <-> In (searchOptimalTrajectory sq st)
                    (calls (findTrajectory_try dom FlybySequence_fromString solver) s)).
  { intros sq st. apply in_click_in_try; try reflexivity. discriminate. }
  rewrite in_click_in_try by (try reflexivity; discriminate).
  rewrite (proj2 (searchStartBtn_run s)).
  split; [split|].
  - intros Hin.
    assert (Hgoal : trajectory s = true
                    /\ exists sq st,
                        In (searchOptimalTrajectory sq st)
                           (calls (findTrajectory_try dom FlybySequence_fromString solver) s)).
    { revert Hin. js_unfold.
      repeat (js_case; cbn); intros Hin;
        repeat (destruct Hin as [Hin|Hin]; try discriminate); try contradiction;
        (split; [reflexivity | do 2 eexists; in_list]). }
    destruct Hgoal as (Htraj & sq & st & Hcall).
    split; [exact Htraj|]. exists sq, st. now apply Hsolver.
  - intros (Htraj & sq & st & Hcall). apply Hsolver in Hcall.
    revert Hcall. destruct s as [found counter depRange destRange].
    cbn in Htraj. subst found. js_unfold.
    repeat (js_case; cbn); intros Hin;
      repeat (destruct Hin as [Hin|Hin]; try discriminate); try contradiction;
      in_list.
  - intros Htraj. destruct s as [found counter depRange destRange].
    cbn in Htraj. subst found. js_unfold.
    repeat (js_case; cbn); reflexivity.
Qed.

(** X15. Once a sequence with a first and a last body is chosen, the first
    thing the search does is to give the two altitude inputs their ranges,
    before any validation: the ranges are set, and stay set, even when the
    request is then rejected. *)
Theorem altitude_ranges_set_before_validation
        (s : Closure) (sq : FlybySequence) (first last : OrbitingBody) :
  outcome (chosenSequence dom FlybySequence_fromString) s = Returned (Some sq) ->
  nth_error (bodies sq) 0 = Some first ->
  bodyBefore sq (seq_length sq) = Some last ->
  (exists rest,
      calls (findTrajectory_try dom FlybySequence_fromString solver) s
      = calls (chosenSequence dom FlybySequence_fromString) s
          ++ setMinMax depAltitudeInput 0 (altitudeMax first)
          :: setMinMax destAltitudeInput 0 (altitudeMax last)
          :: rest)
  /\ depAltitude_range
       (final (searchStartBtn_onclick dom FlybySequence_fromString solver) s)
     = Some (0%Z, altitudeMax first)
  /\ destAltitude_range
       (final (searchStartBtn_onclick dom FlybySequence_fromString solver) s)
     = Some (0%Z, altitudeMax last).
Proof.
  intros Hseq Hfirst Hlast.
  rewrite (proj2 (searchStartBtn_run s)).
  pose proof (chosenSequence_frame dom FlybySequence_fromString s) as Hframe.
  unfold outcome in Hseq. unfold final in Hframe.
  unfold calls at 2.
  destruct (chosenSequence dom FlybySequence_fromString s) as [[tr o] s'] eqn:Hchosen.
  cbn in Hseq, Hframe. subst o s'. cbn [fst].
  unfold bodyBefore in Hlast.
  unfold calls, final.
  destruct (findTrajectory_try dom FlybySequence_fromString solver s)
    as [[trT oT] sT] eqn:Htry.
  cbn [fst snd]. revert Htry.
  unfold findTrajectory_try. unfold bind at 1. rewrite Hchosen.
  unfold dereference, bodyBefore, updateAltitudeRange, input_setMinMax, input_value,
    rangeOf, validateTime, validateInput, resetFoundTrajectory,
    displayFoundTrajectory, when, bind, call, settle, throw, ret, get, put.
  rewrite Hfirst, Hlast. cbn.
  repeat (js_case; cbn); intros Htry; injection Htry as <- <- <-;
    (split; [eexists; reflexivity | split; reflexivity]).
Qed.

(** X16. With a sequence chosen, the checks of the request are made in
    order and the first that fails decides the error.  An invalid start date
    is reported without the end date being validated at all; an invalid end
    date gives the same message; and when both dates are valid and the
    window is not inverted, an invalid duration limit stops the search,
    whether or not the checkbox of the limit is ticked. *)
Theorem validation_errors_in_order
        (s : Closure) (sq : FlybySequence) (first last : OrbitingBody) :
  outcome (chosenSequence dom FlybySequence_fromString) s = Returned (Some sq) ->
  nth_error (bodies sq) 0 = Some first ->
  bodyBefore sq (seq_length sq) = Some last ->
  (time_validate_of dom timeRangeStart = false ->
   outcome (findTrajectory_try dom FlybySequence_fromString solver) s
   = Thrown (JsError "Invalid departure and arrival date values.")
   /\ ~ In (time_validate timeRangeEnd)
           (calls (findTrajectory_try dom FlybySequence_fromString solver) s))
  /\ (time_validate_of dom timeRangeStart = true ->
      time_validate_of dom timeRangeEnd = false ->
      outcome (findTrajectory_try dom FlybySequence_fromString solver) s
      = Thrown (JsError "Invalid departure and arrival date values."))
  /\ (time_validate_of dom timeRangeStart = true ->
      time_validate_of dom timeRangeEnd = true ->
      ~ (dateSeconds dom timeRangeEnd < dateSeconds dom timeRangeStart)%Q ->
      validate_of dom maxDurationInput = false ->
      outcome (findTrajectory_try dom FlybySequence_fromString solver) s
      = Thrown (JsError "Invalid duration limit.")).
Proof.
  intros Hseq Hfirst Hlast.
  pose proof (chosenSequence_frame dom FlybySequence_fromString s) as Hframe.
  unfold outcome in Hseq. unfold final in Hframe.
  destruct (chosenSequence dom FlybySequence_fromString s) as [[tr o] s'] eqn:Hchosen.
  cbn in Hseq, Hframe. subst o s'.
  assert (Hfresh : forall c, In c (calls (chosenSequence dom FlybySequence_fromString) s) ->
                             c <> time_validate timeRangeEnd).
  { intros c. unfold calls, chosenSequence, bind, call, settle, ret.
    repeat (js_case; cbn); intros Hc;
      repeat (destruct Hc as [Hc|Hc]; try (subst c; discriminate)); contradiction. }
  unfold calls in Hfresh. rewrite Hchosen in Hfresh. cbn [fst] in Hfresh.
  unfold bodyBefore in Hlast.
  unfold calls, outcome.
  destruct (findTrajectory_try dom FlybySequence_fromString solver s)
    as [[trT oT] sT] eqn:Htry.
  cbn [fst snd]. revert Htry.
  unfold findTrajectory_try. unfold bind at 1. rewrite Hchosen.
  unfold dereference, bodyBefore, updateAltitudeRange, input_setMinMax, input_value,
    rangeOf, validateTime, validateInput, resetFoundTrajectory,
    displayFoundTrajectory, when, bind, call, settle, throw, ret, get, put.
  rewrite Hfirst, Hlast. cbn.
  intros Htry. split; [| split].
  - intros Hs. rewrite Hs in Htry. cbn in Htry. injection Htry as <- <- <-.
    split; [reflexivity|]. rewrite in_app_iff. intros [Hin|Hin].
    + exact (Hfresh _ Hin eq_refl).
    + cbn in Hin. repeat (destruct Hin as [Hin|Hin]; try discriminate). contradiction.
  - intros Hs He. rewrite Hs, He in Htry. cbn in Htry. now injection Htry as <- <- <-.
  - intros Hs He Hwindow Hd.
    assert (Hge : Qltb (dateSeconds dom timeRangeEnd) (dateSeconds dom timeRangeStart)
                  = false).
    { destruct (Qltb _ _) eqn:E; [| reflexivity]. apply Qltb_lt in E. contradiction. }
    rewrite Hs, He, Hge, Hd in Htry. cbn in Htry. now injection Htry as <- <- <-.
Qed.

(** X17. A click starts at most one search, and only that of its own
    panel. *)
Theorem at_most_one_search_per_click (k : Search) (s : Closure) :
  (List.length
     (filter isSearchCall
        (calls (onclick dom generator FlybySequence_fromString solver k) s)) <= 1)%nat
  /\ forall c,
      In c (calls (onclick dom generator FlybySequence_fromString solver k) s) ->
      match c, k with
      | generateFlybySequences params, SequenceGeneration => params = sequenceParams dom
      | generateFlybySequences _, TrajectorySearch => False
      | searchOptimalTrajectory _ _, SequenceGeneration => False
      | _, _ => True
      end.
Proof.
  assert (Htry : (List.length
                    (filter isSearchCall
                       (calls (tryBlock dom generator FlybySequence_fromString solver k) s))
                  <= 1)%nat
                 /\ forall c,
                     In c (calls (tryBlock dom generator FlybySequence_fromString solver k) s) ->
                     match c, k with
                     | generateFlybySequences params, SequenceGeneration =>
                         params = sequenceParams dom
                     | generateFlybySequences _, TrajectorySearch => False
                     | searchOptimalTrajectory _ _, SequenceGeneration => False
                     | _, _ => True
                     end).
  { destruct k; cbn [tryBlock].
    - split.
      + unfold calls. rewrite generateSequences_try_run.
        pose proof (assertSequenceInputs_frame dom s) as [_ Hassert].
        assert (Hnone : filter isSearchCall (calls (assertSequenceInputs dom) s) = []).
        { apply filter_none. intros c Hc. destruct (Hassert c Hc) as [i ->]. reflexivity. }
        destruct (outcome (assertSequenceInputs dom) s) as [[]|e]; cbn [fst];
          rewrite !filter_app, Hnone; [| cbn; lia].
        unfold calls at 1. rewrite runSequenceGeneration_run. cbn [fst].
        change (generateFlybySequences (sequenceParams dom) :: ?l)
          with ([generateFlybySequences (sequenceParams dom)] ++ l).
        rewrite !filter_app, (filter_none isSearchCall (map _ _)).
        * destruct (settled (generator (sequenceParams dom))); cbn; lia.
        * intros c Hc. apply in_map_iff in Hc. destruct Hc as (r & <- & _). reflexivity.
      + intros c Hc. apply in_generateSequences_try in Hc.
        destruct Hc as [->|[->|[->|[[i ->]|[_ [->|[[r ->]|(sq & _ & [->| ->])]]]]]]];
          exact I || reflexivity.
    - split.
      + js_unfold. repeat (js_case; cbn); lia.
      + assert (Hnever : forall c params,
                   In c (calls (findTrajectory_try dom FlybySequence_fromString solver) s) ->
                   c <> generateFlybySequences params).
        { intros c params. js_unfold.
          repeat (js_case; cbn); intros Hc;
            repeat (destruct Hc as [Hc|Hc]; try (subst c; discriminate)); contradiction. }
        intros c Hc. destruct c; try exact I. exact (Hnever _ _ Hc eq_refl). }
  destruct Htry as [Hcount Hkind].
  unfold calls at 1 2. rewrite onclick_run. cbn [fst].
  unfold calls at 1 2. rewrite handler_run. cbn [fst].
  split.
  - rewrite !filter_app.
    rewrite (filter_none isSearchCall (catchCalls _ _ _)).
    + replace (filter isSearchCall (finallyCalls k)) with (@nil Call)
        by (destruct k; reflexivity).
      cbn. rewrite !app_nil_r. exact Hcount.
    + intros c Hc. apply (in_catchCalls FlybySequence_fromString) in Hc.
      destruct Hc as (e & _ & [->|[-> _]]); reflexivity.
  - intros c Hc. rewrite !in_app_iff in Hc. cbn [In] in Hc.
    destruct Hc as [[<-|[]]|[[[<-|[<-|[]]]|[Hc|[Hc|Hc]]]|[<-|[]]]]; try exact I.
    + exact (Hkind c Hc).
    + apply (in_catchCalls FlybySequence_fromString) in Hc.
      destruct Hc as (e & _ & [->|[-> _]]); exact I.
    + apply in_finallyCalls in Hc. destruct Hc as [->| ->]; exact I.
Qed.

End Trajectory.

End EditorMoreFacts.

(** * The further properties at work on a page *)

Module EditorMoreWitnesses.
Import Editor TraceView TraceKinds Samples MoreSamples EditorMoreFacts.

Lemma altitudeMax_largest_kilometre_within_soi_witness :
  altitudeMax kerbin = 83559%Z
  /\ ((83559 <= altitudeMax kerbin)%Z
      <-> (inject_Z (83559 * 1000) <= soi kerbin - radius kerbin)%Q).
Proof.
  apply (altitudeMax_largest_kilometre_within_soi kerbin 84159286 600000 83559);
    [reflexivity | reflexivity | lia | lia].
Defined.

Lemma controls_disabled_during_a_click_witness :
  enabledAfter searchStartBtn None
    (firstn 4 (calls (onclick (page kerbin duna 0 1) directGenerator noParser quietSolver
                              TrajectorySearch) freshClosure))
  = Some false
  /\ enabledAfter systemSelector None
       (firstn 4 (calls (onclick (page kerbin duna 0 1) directGenerator noParser
                                 quietSolver TrajectorySearch) freshClosure))
     = Some false.
Proof.
  destruct (controls_disabled_during_a_click
              (page kerbin duna 0 1) directGenerator noParser quietSolver
              TrajectorySearch freshClosure 4) as [Hbutton Hselector].
  - lia.
  - vm_compute. lia.
  - split; [exact Hbutton|]. apply Hselector; [lia | vm_compute; lia].
Defined.

Lemma successful_generation_fills_selector_witness :
  filter onSequenceSelector
    (calls (seqGenBtn_onclick (page kerbin duna 0 1) directGenerator) freshClosure)
  = [disable sequenceSelector; clear sequenceSelector;
     fillFrom [kerbinToDuna]; enable sequenceSelector].
Proof.
  apply (successful_generation_fills_selector
           (page kerbin duna 0 1) directGenerator noParser quietSolver
           freshClosure [kerbinToDuna]);
    reflexivity.
Defined.

Lemma failed_generation_leaves_selector_cleared_witness :
  filter onSequenceSelector
    (calls (seqGenBtn_onclick (page kerbin duna 0 1) failingGenerator) freshClosure)
  = [disable sequenceSelector; clear sequenceSelector].
Proof.
  apply (failed_generation_leaves_selector_cleared
           (page kerbin duna 0 1) failingGenerator noParser quietSolver
           freshClosure (JsError "Worker failed.")).
  reflexivity.
Defined.

Lemma precondition_message_is_shown_witness :
  filter isReport
    (calls (seqGenBtn_onclick (page kerbin mun 0 1) directGenerator) freshClosure)
  = [show sequenceParamsErr
       (JsError "Origin and destination bodies must orbit the same body.");
     console_error
       (JsError "Origin and destination bodies must orbit the same body.")].
Proof.
  apply (precondition_message_is_shown
           (page kerbin mun 0 1) directGenerator noParser quietSolver freshClosure).
  - reflexivity.
  - left. cbn. discriminate.
Defined.

Lemma search_without_sequence_witness :
  calls (searchStartBtn_onclick (form "" None true true true 0 1) noParser quietSolver)
        freshClosure
  = [disable searchStartBtn; hide searchParamsErr; disable systemSelector;
     show searchParamsErr typeError; console_error typeError;
     enable systemSelector; enable searchStartBtn].
Proof.
  apply (search_without_sequence
           (form "" None true true true 0 1) directGenerator noParser quietSolver
           freshClosure).
  - reflexivity.
  - left. reflexivity.
Defined.

Lemma custom_sequence_comes_first_witness :
  findTrajectory_try (form "Kerbin" (Some kerbinToDuna) true true true 0 1)
                     oneText quietSolver freshClosure
  = ([fromString "Kerbin"], Thrown (JsError "Invalid custom sequence input."),
     freshClosure).
Proof.
  apply (custom_sequence_comes_first
           (form "Kerbin" (Some kerbinToDuna) true true true 0 1)
           directGenerator oneText quietSolver freshClosure).
  - discriminate.
  - reflexivity.
Defined.


Lemma rejected_request_keeps_results_witness :
  filter onResultPanel
    (calls (searchStartBtn_onclick (form "" (Some kerbinToDuna) true false true 0 1)
                                   noParser quietSolver) foundClosure) = []
  /\ trajectory
       (final (searchStartBtn_onclick (form "" (Some kerbinToDuna) true false true 0 1)
                                      noParser quietSolver) foundClosure)
     = true
  /\ trajectoryCounter
       (final (searchStartBtn_onclick (form "" (Some kerbinToDuna) true false true 0 1)
                                      noParser quietSolver) foundClosure)
     = 1%nat.
Proof.
  apply (rejected_request_keeps_results
           (form "" (Some kerbinToDuna) true false true 0 1)
           directGenerator noParser quietSolver foundClosure).
  intros sq st Hin. vm_compute in Hin.
  repeat (destruct Hin as [Hin|Hin]; try discriminate). exact Hin.
Defined.

Lemma results_follow_the_solver_witness :
  enabledAfter downloadTrajDataBtn None
    (calls (searchStartBtn_onclick (form "" (Some kerbinToDuna) true true true 0 1)
                                   noParser failingSolver) foundClosure)
  = Some false
  /\ trajectoryCounter
       (final (searchStartBtn_onclick (form "" (Some kerbinToDuna) true true true 0 1)
                                      noParser failingSolver) foundClosure)
     = 1%nat.
Proof.
  destruct (results_follow_the_solver
              (form "" (Some kerbinToDuna) true true true 0 1)
              directGenerator noParser failingSolver foundClosure
              kerbinToDuna sampleSettings)
    as (_ & _ & _ & Hdownload & _ & Hcounter).
  - vm_compute. tauto.
  - split; assumption.
Defined.

Lemma altitude_ranges_set_before_validation_witness :
  depAltitude_range
    (final (searchStartBtn_onclick (form "" (Some kerbinToDuna) false true true 0 1)
                                   noParser quietSolver) freshClosure)
  = Some (0%Z, altitudeMax kerbin)
  /\ destAltitude_range
       (final (searchStartBtn_onclick (form "" (Some kerbinToDuna) false true true 0 1)
                                      noParser quietSolver) freshClosure)
     = Some (0%Z, altitudeMax duna).
Proof.
  apply (altitude_ranges_set_before_validation
           (form "" (Some kerbinToDuna) false true true 0 1)
           directGenerator noParser quietSolver freshClosure kerbinToDuna kerbin duna);
    reflexivity.
Defined.

Lemma validation_errors_in_order_witness :
  outcome (findTrajectory_try (form "" (Some kerbinToDuna) true true false 0 1)
                              noParser quietSolver) freshClosure
  = Thrown (JsError "Invalid duration limit.").
Proof.
  destruct (validation_errors_in_order
              (form "" (Some kerbinToDuna) true true false 0 1)
              noParser quietSolver freshClosure kerbinToDuna kerbin duna)
    as (_ & _ & Hduration); [reflexivity | reflexivity | reflexivity |].
  apply Hduration; [reflexivity | reflexivity | | reflexivity].
  intros Hlt. vm_compute in Hlt. discriminate.
Defined.

End EditorMoreWitnesses.

(** * Properties of the animation loop *)

Module AnimationLoopFacts.
Import AnimationLoop.

Local Open Scope nat_scope.

Lemma run_app (st : LoopState) (l1 l2 : list Event) :
  run st (l1 ++ l2)
  = (fst (run st l1) ++ fst (run (snd (run st l1)) l2),
     snd (run (snd (run st l1)) l2)).
Proof.
  revert st. induction l1 as [|e l1 IH]; intros st.
  - cbn. now destruct (run st l2).
  - rewrite <- app_comm_cons. cbn [run]. destruct (react st e) as [c1 st1]. rewrite IH.
    destruct (run st1 l1) as [c2 st2]. cbn [fst snd].
    now rewrite app_assoc.
Qed.

Lemma run_at_rest (events : list Event) :
  run {| stop := true; waiting := 0 |} events = ([], {| stop := true; waiting := 0 |}).
Proof.
  induction events as [|e events IH]; [reflexivity|].
  assert (Hreact : react {| stop := true; waiting := 0 |} e
                   = ([], {| stop := true; waiting := 0 |}))
    by (destruct e; reflexivity).
  change (run {| stop := true; waiting := 0 |} (e :: events))
    with (let '(c1, st1) := react {| stop := true; waiting := 0 |} e in
          let '(c2, st2) := run st1 events in (c1 ++ c2, st2)).
  rewrite Hreact. cbv beta iota zeta. rewrite IH. reflexivity.
Qed.

Lemma run_stopped (events : list Event) :
  run {| stop := true; waiting := 1 |} events
  = if existsb isFrame events
    then ([controls_update; system_update; renderer_render],
          {| stop := true; waiting := 0 |})
    else ([], {| stop := true; waiting := 1 |}).
Proof.
  induction events as [|e events IH]; [reflexivity|].
  change (run {| stop := true; waiting := 1 |} (e :: events))
    with (let '(c1, st1) := react {| stop := true; waiting := 1 |} e in
          let '(c2, st2) := run st1 events in (c1 ++ c2, st2)).
  destruct e.
  - change (react {| stop := true; waiting := 1 |} Frame)
      with ([controls_update; system_update; renderer_render],
            {| stop := true; waiting := 0 |}).
    cbv beta iota zeta. rewrite run_at_rest. reflexivity.
  - change (react {| stop := true; waiting := 1 |} StopLoop)
      with (@nil FrameCall, {| stop := true; waiting := 1 |}).
    cbv beta iota zeta. rewrite IH. cbn [existsb isFrame orb].
    now destruct (existsb isFrame events).
Qed.

(** Until [stopLoop] is called, every frame runs the body of [loop] once
    and leaves exactly one request waiting for the next frame. *)
Lemma frames_before_stop (frames : list Event) :
  forallb isFrame frames = true ->
  run started frames
  = (List.concat (map (fun _ => [controls_update; system_update; renderer_render]) frames),
     started).
Proof.
  induction frames as [|[|] frames IH]; intros Hframes; try discriminate.
  - reflexivity.
  - cbn in Hframes. specialize (IH Hframes).
    change (run started (Frame :: frames))
      with (let '(c2, st2) := run started frames in
            ([controls_update; system_update; renderer_render] ++ c2, st2)).
    rewrite IH. reflexivity.
Qed.

(** X18. Until [stopLoop] is called, every frame runs the body of [loop]
    once, in the order controls, system, renderer.  [stopLoop] does not
    withdraw the request that is waiting: the frame that follows still
    updates the controls and the system and renders once, and only then
    does the loop stop for good, whatever comes after. *)
Theorem stopLoop_lets_one_frame_through (before after : list Event) :
  forallb isFrame before = true ->
  run started (before ++ StopLoop :: after)
  = (List.concat (map (fun _ => [controls_update; system_update; renderer_render]) before)
       ++ (if existsb isFrame after
           then [controls_update; system_update; renderer_render]
           else []),
     {| stop := true; waiting := if existsb isFrame after then 0 else 1 |}).
Proof.
  intros Hbefore. rewrite run_app, (frames_before_stop before Hbefore).
  cbn [fst snd].
  change (run started (StopLoop :: after))
    with (let '(c2, st2) := run {| stop := true; waiting := 1 |} after in
          ([] ++ c2, st2)).
  rewrite run_stopped. now destruct (existsb isFrame after).
Qed.

Lemma stopLoop_lets_one_frame_through_witness :
  run started ([Frame] ++ StopLoop :: [Frame; Frame])
  = ([controls_update; system_update; renderer_render;
      controls_update; system_update; renderer_render],
     {| stop := true; waiting := 0 |}).
Proof.
  apply (stopLoop_lets_one_frame_through [Frame] [Frame; Frame]). reflexivity.
Defined.

End AnimationLoopFacts.

(** * Properties of the search control protocol *)

Module SearchControlFacts.
Import Editor TraceView TraceKinds SearchControl.

Local Open Scope nat_scope.

Section Protocol.
Variable Work : Type.
Variable Result : Type.
Variable violation : option string.
Variable advance : nat -> Work -> Work.
Variable finished : Work -> bool.
Variable resultOf : Work -> option Result.
Variable infeasibility : string.
Variable budget : nat.
Variable cancelRequested : nat -> bool.



Lemma conclude_records (w : Work) (d : string) :
  In (failureLogged d) (fst (conclude Work Result resultOf infeasibility w))
  <-> snd (conclude Work Result resultOf infeasibility w) = Failure d.
Proof.
  unfold conclude. destruct (resultOf w); cbn.
  - split; [tauto | discriminate].
  - split; [intros [[= ->]|[]]; reflexivity | intros [= ->]; now left].
Qed.

Lemma checkpoints_record (fuel i : nat) (w : Work) (d : string) :
  In (failureLogged d)
     (fst (checkpoints Work Result advance finished resultOf infeasibility budget
             cancelRequested fuel i w))
  <-> snd (checkpoints Work Result advance finished resultOf infeasibility budget
             cancelRequested fuel i w) = Failure d.
Proof.
  revert i w. induction fuel as [|fuel IH]; intros i w; cbn [checkpoints].
  - apply conclude_records.
  - destruct (cancelRequested i); [cbn; split; [tauto | discriminate]|].
    destruct (finished (advance i w)).
    + pose proof (conclude_records (advance i w) d) as Hend.
      destruct (conclude Work Result resultOf infeasibility (advance i w)) as [events out].
      cbn [fst snd] in *. rewrite <- Hend. cbn. split; [intros [H|H] | intros H].
      * discriminate.
      * assumption.
      * now right.
    + specialize (IH (S i) (advance i w)).
      destruct (checkpoints Work Result advance finished resultOf infeasibility budget
                  cancelRequested fuel (S i) (advance i w)) as [events out].
      cbn [fst snd] in *. rewrite <- IH. cbn. split; [intros [H|H] | intros H].
      * discriminate.
      * assumption.
      * now right.
Qed.

(** What the core records is its failures: a search has a record of a
    failure exactly when it ends with that failure. *)
Lemma failure_recorded_iff_failed (initial : Work) (d : string) :
  In (failureLogged d)
     (fst (search Work Result violation advance finished resultOf infeasibility budget
             cancelRequested initial))
  <-> snd (search Work Result violation advance finished resultOf infeasibility budget
             cancelRequested initial) = Failure d.
Proof.
  unfold search. destruct violation as [v|]; [| apply checkpoints_record].
  cbn. split; [intros [[= ->]|[]]; reflexivity | intros [= ->]; now left].
Qed.


End Protocol.

Import Samples.


End SearchControlFacts.
